(** * txt2tex: a shallow embedding of src/txt2tex.c

    The converter reads a Signal text export line by line, resolves
    attachment references against the files of ./attachments and writes a
    LaTeX document.  This file embeds the C functions of txt2tex.c as Rocq
    functions and proves properties of the attachment matcher, the line
    classifier, the LaTeX escaper and the output-path derivation.

    Conventions of the embedding.
    - [unsigned char] is [byte]; [int], [long long] and [size_t] values are
      [Z] or [nat], with the one narrowing conversion of the program,
      [(int)i], written out as [to_int].
    - A [const char *] that a function only reads as a C string is a
      [cstring]: the bytes before the terminating NUL.
    - The array [char line[8192]] of [main], which is written in place and
      which [writeLatexEscaped] may read beyond its terminator, is a
      [buffer]: every byte of the array, terminator and stale bytes
      included.  A read outside the array is undefined behaviour and is
      the outcome [Fault].
    - [FILE *out] is the list of bytes written so far. *)

From Stdlib Require Import ZArith Lia Bool.
From Stdlib Require Import Strings.Byte Strings.String.
From stdpp Require Import base tactics option list.

Local Open Scope Z_scope.

(** ** Bytes and string literals *)

#[global] Instance byte_eq_decision : EqDecision byte := Byte.byte_eq_dec.

Abbreviation cstring := (list byte) (only parsing).
Abbreviation buffer := (list byte) (only parsing).

(** A C string literal; Rocq strings have no escapes, so a backslash in
    the literal is one byte and newlines are written [NL]. *)
Definition B (s : string) : cstring := list_byte_of_string s.
Arguments B s%_string.

Definition NL : byte := x0a.
Definition NUL : byte := x00.

(** The value of an [unsigned char] as an [int]. *)
Definition byte_val (c : byte) : Z := Z.of_N (Byte.to_N c).

(** The conversion [(char)z] of an [int] holding a character value. *)
Definition to_char (z : Z) : byte :=
  default x00 (Byte.of_N (Z.to_N (z mod 256))).

(** ** Outcomes of code that may leave its array *)

Inductive outcome (A : Type) : Type :=
| Done (a : A)
| Fault
| OutOfFuel.
Arguments Done {A} a.
Arguments Fault {A}.
Arguments OutOfFuel {A}.

Definition bind_outcome {A C} (m : outcome A) (k : A -> outcome C) : outcome C :=
  match m with
  | Done a => k a
  | Fault => Fault
  | OutOfFuel => OutOfFuel
  end.

Definition map_outcome {A C} (f : A -> C) (m : outcome A) : outcome C :=
  bind_outcome m (fun a => Done (f a)).

#[global] Instance outcome_ret : MRet outcome := fun A a => Done a.
#[global] Instance outcome_bind : MBind outcome :=
  fun A C k m => bind_outcome m k.
#[global] Instance outcome_fmap : FMap outcome :=
  fun A C f m => map_outcome f m.

(** ** The C library functions the program calls *)

Module CLib.

(** [isspace] in the "C" locale (the program never calls setlocale). *)
Definition isspace (c : Z) : bool :=
  (c =? 32) || ((9 <=? c) && (c <=? 13)).

(** [tolower] in the "C" locale. *)
Definition tolower (c : Z) : Z :=
  if (65 <=? c) && (c <=? 90) then c + 32 else c.

(** The C string held by a buffer: the bytes before the first NUL. *)
Fixpoint cstr (buf : buffer) : cstring :=
  match buf with
  | [] => []
  | c :: buf' => if decide (c = NUL) then [] else c :: cstr buf'
  end.

Definition strlen (buf : buffer) : nat := length (cstr buf).

(** [strchr s c] for [c] other than NUL: the offset of the first
    occurrence. *)
Fixpoint strchr (s : cstring) (c : byte) : option nat :=
  match s with
  | [] => None
  | x :: s' => if decide (x = c) then Some 0%nat else S <$> strchr s' c
  end.

(** [strrchr s c] for [c] other than NUL: the offset of the last
    occurrence. *)
Fixpoint strrchr (s : cstring) (c : byte) : option nat :=
  match s with
  | [] => None
  | x :: s' =>
      match strrchr s' c with
      | Some k => Some (S k)
      | None => if decide (x = c) then Some 0%nat else None
      end
  end.

(** [strcmp(a, b) == 0]. *)
Definition strcmp_eq (a b : cstring) : bool := bool_decide (a = b).

(** [strncmp(a, b, n) == 0]: the comparison stops at the first
    difference, at the end of either string, or after [n] bytes. *)
Fixpoint strncmp_eq (a b : cstring) (n : nat) {struct n} : bool :=
  match n with
  | O => true
  | S n' =>
      match a, b with
      | [], [] => true
      | x :: a', y :: b' =>
          if decide (x = y) then strncmp_eq a' b' n' else false
      | _, _ => false
      end
  end.

(** [snprintf(dst, cap, "%s", s)]: at most [cap - 1] bytes are kept. *)
Definition snprintf_s (cap : nat) (s : cstring) : cstring :=
  take (cap - 1) s.

(** Storing bytes at the start of an array; the rest keeps its old
    content. *)
Definition store (buf : buffer) (data : list byte) : buffer :=
  data ++ drop (length data) buf.

(** [fgets(line, size, in)]: at most [size - 1] bytes, stopping after a
    newline; no result at end of file. *)
Fixpoint fgets_take (n : nat) (s : list byte) : list byte * list byte :=
  match n, s with
  | S n', c :: s' =>
      if decide (c = NL) then ([c], s')
      else let '(a, r) := fgets_take n' s' in (c :: a, r)
  | _, _ => ([], s)
  end.

Definition fgets (size : nat) (s : list byte) : option (list byte * list byte) :=
  match s with
  | [] => None
  | _ => Some (fgets_take (size - 1) s)
  end.

(** [sscanf(s, "%lld", &v)]: leading white space, an optional sign and
    at least one decimal digit; the value saturates at the bounds of
    [long long] as glibc's conversion does. *)
Definition LLONG_MAX : Z := 2 ^ 63 - 1.
Definition LLONG_MIN : Z := - 2 ^ 63.

Definition is_digit (c : byte) : bool :=
  (48 <=? byte_val c) && (byte_val c <=? 57).

Fixpoint skip_space (s : cstring) : cstring :=
  match s with
  | c :: s' => if isspace (byte_val c) then skip_space s' else s
  | [] => []
  end.

Fixpoint digits_value (acc : Z) (s : cstring) : Z :=
  match s with
  | c :: s' =>
      if is_digit c then digits_value (10 * acc + (byte_val c - 48)) s'
      else acc
  | [] => acc
  end.

Definition clamp_ll (z : Z) : Z := Z.max LLONG_MIN (Z.min LLONG_MAX z).

Definition scan_unsigned (s : cstring) : option Z :=
  match s with
  | c :: _ => if is_digit c then Some (digits_value 0 s) else None
  | [] => None
  end.

Definition sscanf_lld (s : cstring) : option Z :=
  match skip_space s with
  | c :: s' =>
      if decide (c = x2d) then (fun v => clamp_ll (- v)) <$> scan_unsigned s'
      else if decide (c = x2b) then clamp_ll <$> scan_unsigned s'
      else clamp_ll <$> scan_unsigned (c :: s')
  | [] => None
  end.

End CLib.
Import CLib.

(** ** Constants and data of txt2tex.c *)

Definition MaxPathLen : nat := 4096.

Definition INT_MAX : Z := 2 ^ 31 - 1.

(** The conversion [(int)i] of a [size_t] index. *)
Definition to_int (z : Z) : Z := (z + 2 ^ 31) mod 2 ^ 32 - 2 ^ 31.

Record AttachmentFile : Type := mkAttachmentFile {
  fileName : cstring;
  fullPath : cstring;
  fileSize : Z;
  used : bool
}.

(** [AttachmentList]: the [count] items, in order. *)
Abbreviation AttachmentList := (list AttachmentFile) (only parsing).

(** ** hasImageExtension *)

Definition lower_char (c : byte) : byte := to_char (tolower (byte_val c)).

Definition hasImageExtension (name : cstring) : bool :=
  match strrchr name x2e with
  | None => false
  | Some O => false
  | Some (S k) =>
      let dot := drop (S (S k)) name in
      if (16 <=? length dot)%nat then false
      else
        let ext := map lower_char dot in
        strcmp_eq ext (B "png") || strcmp_eq ext (B "jpg")
        || strcmp_eq ext (B "jpeg") || strcmp_eq ext (B "gif")
        || strcmp_eq ext (B "bmp") || strcmp_eq ext (B "tif")
        || strcmp_eq ext (B "tiff")
  end.

(** ** The attachment list and loadAttachmentsDir *)

Definition attachmentListInit : AttachmentList := [].

Definition attachmentListPush (l : AttachmentList) (item : AttachmentFile)
  : AttachmentList := l ++ [item].

(** One result of [readdir], with what [stat] says of the entry: [None]
    when [stat] fails, otherwise [S_ISREG(st_mode)] and [st_size]. *)
Record dirent : Type := mkDirent {
  d_name : cstring;
  d_stat : option (bool * Z)
}.

Definition loadEntry (dirPath : cstring) (l : AttachmentList) (ent : dirent)
  : AttachmentList :=
  if strcmp_eq (d_name ent) (B ".") || strcmp_eq (d_name ent) (B "..") then l
  else
    let full := snprintf_s MaxPathLen (dirPath ++ B "/" ++ d_name ent) in
    match d_stat ent with
    | None => l
    | Some (isreg, size) =>
        if negb isreg then l
        else attachmentListPush l
               {| fileName := snprintf_s MaxPathLen (d_name ent);
                  fullPath := snprintf_s MaxPathLen full;
                  fileSize := size;
                  used := false |}
    end.

(** The [readdir] loop of [loadAttachmentsDir], for a directory that
    [opendir] opened. *)
Definition loadAttachmentsDir (dirPath : cstring) (entries : list dirent)
    (l : AttachmentList) : AttachmentList :=
  fold_left (loadEntry dirPath) entries l.

(** ** utf8CharLen and writeLatexEscaped *)

Definition utf8CharLen (c : byte) : Z :=
  if Z.land (byte_val c) 0x80 =? 0 then 1
  else if Z.land (byte_val c) 0xE0 =? 0xC0 then 2
  else if Z.land (byte_val c) 0xF0 =? 0xE0 then 3
  else if Z.land (byte_val c) 0xF8 =? 0xF0 then 4
  else 1.

(** The [switch] of [writeLatexEscaped] on a byte below 0x80. *)
Definition latex_ascii (c : byte) : list byte :=
  match c with
  | x5c => B "\textbackslash{}"
  | x7b => B "\{"
  | x7d => B "\}"
  | x23 => B "\#"
  | x24 => B "\$"
  | x25 => B "\%"
  | x26 => B "\&"
  | x5f => B "\_"
  | x5e => B "\textasciicircum{}"
  | x7e => B "\textasciitilde{}"
  | _ => [c]
  end.

Definition emoji_open : list byte := B "\emoji{".
Definition emoji_close : list byte := B "}".

(** What one run of [writeLatexEscaped] did with the bytes of its
    argument, by offset from [s]: [Escaped i] when the [switch] handled
    byte [i], [Copied i] when [fwrite] copied it. *)
Inductive access : Type :=
| Escaped (i : nat)
| Copied (i : nat).

Definition access_offset (a : access) : nat :=
  match a with Escaped i => i | Copied i => i end.

Definition emit (o : list byte) (t : list access)
    (m : outcome (list byte * list access)) : outcome (list byte * list access) :=
  map_outcome (fun '(o', t') => (o ++ o', t ++ t')) m.

(** The loop of [writeLatexEscaped], which runs until [p] points at a
    NUL.  [mem] is the array from [p] to its end and [off] is the offset
    of [p] from [s]. *)
Fixpoint escape_loop (fuel : nat) (mem : buffer) (off : nat)
  : outcome (list byte * list access) :=
  match fuel with
  | O => OutOfFuel
  | S fuel' =>
      match mem with
      | [] => Fault
      | c :: mem' =>
          if decide (c = NUL) then Done ([], [])
          else if byte_val c <? 0x80 then
            emit (latex_ascii c) [Escaped off] (escape_loop fuel' mem' (S off))
          else
            let len := Z.to_nat (utf8CharLen c) in
            if (length mem <? len)%nat then Fault
            else
              emit (emoji_open ++ take len mem ++ emoji_close)
                   (Copied <$> seq off len)
                   (escape_loop fuel' (drop len mem) (off + len)%nat)
      end
  end.

Definition writeLatexEscaped_traced (s : buffer)
  : outcome (list byte * list access) :=
  escape_loop (S (length s)) s 0.

(** The bytes [writeLatexEscaped(out, s)] appends to [out]. *)
Definition writeLatexEscaped (s : buffer) : outcome (list byte) :=
  map_outcome fst (writeLatexEscaped_traced s).

(** ** trimRight, startsWith, startsWithIgnoreCase *)

Definition is_trimmed (c : byte) : bool :=
  bool_decide (c = x0d) || bool_decide (c = x0a) || isspace (byte_val c).

Fixpoint trimRight_loop (s : buffer) (n : nat) : buffer :=
  match n with
  | O => s
  | S m =>
      match s !! m with
      | Some c => if is_trimmed c then trimRight_loop (<[m := NUL]> s) m else s
      | None => s
      end
  end.

Definition trimRight (s : buffer) : buffer := trimRight_loop s (strlen s).

Definition startsWith (s prefix : cstring) : bool :=
  strncmp_eq s prefix (length prefix).

(** At the end of [s] the byte read is the terminator, which differs
    from every byte of a prefix. *)
Fixpoint startsWithIgnoreCase (s prefix : cstring) {struct prefix} : bool :=
  match prefix with
  | [] => true
  | c :: prefix' =>
      match s with
      | [] => false
      | x :: s' =>
          if tolower (byte_val x) =? tolower (byte_val c)
          then startsWithIgnoreCase s' prefix'
          else false
      end
  end.

(** A local array filled by [memcpy] and a terminator, trimmed in place
    and read back as a C string. *)
Definition trimmed (s : cstring) : cstring := cstr (trimRight (s ++ [NUL])).

(** ** parseAttachmentLine *)

(** The four results [parseAttachmentLine] writes through its pointers,
    under the names of the variables of [main] that receive them. *)
Record parsed : Type := mkParsed {
  attName : cstring;
  attMime : cstring;
  attBytes : Z;
  hasName : bool
}.

(** [memcpy] of at most [cap - 1] bytes, as the clamp on the length
    before each copy does. *)
Definition clamp_len (cap n : nat) : nat :=
  if (cap <=? n)%nat then (cap - 1)%nat else n.

Definition parseAttachmentLine (line : cstring) (outNameCap outMimeCap : nat)
  : parsed :=
  let nothing := mkParsed [] [] (-1) false in
  if negb (startsWith line (B "Attachment:")) then nothing
  else
    let p := skip_space (drop (length (B "Attachment:")) line) in
    match strchr p x28 with
    | None => nothing
    | Some paren =>
        let namePart := trimmed (take (clamp_len MaxPathLen paren) p) in
        let named :=
          negb (strcmp_eq namePart (B "no filename"))
          && negb (bool_decide (namePart = [])) in
        let name := if named then snprintf_s outNameCap namePart else [] in
        let inside := drop (S paren) p in
        match strchr inside x29 with
        | None => mkParsed name [] (-1) named
        | Some endParen =>
            let inner := trimmed (take (clamp_len MaxPathLen endParen) inside) in
            match strchr inner x2c with
            | None => mkParsed name [] (-1) named
            | Some comma =>
                let rest := skip_space (drop (S comma) inner) in
                let mime := trimmed (take comma inner) in
                mkParsed name (snprintf_s outMimeCap mime)
                         (default (-1) (sscanf_lld rest)) named
            end
        end
    end.

Definition isImageMime (mime : cstring) : bool := startsWith mime (B "image/").

(** ** The matcher: findAttachmentByExactName and findAttachmentBySize *)

(** The loop the three scans share: from index [i], the first item that
    is not [used] and that [hit] accepts. *)
Fixpoint first_unused (hit : AttachmentFile -> bool) (i : nat)
    (items : list AttachmentFile) : option nat :=
  match items with
  | [] => None
  | f :: items' =>
      if used f then first_unused hit (S i) items'
      else if hit f then Some i
      else first_unused hit (S i) items'
  end.

Definition name_hit (name : cstring) (f : AttachmentFile) : bool :=
  strcmp_eq (fileName f) name.

Definition size_hit (size : Z) (f : AttachmentFile) : bool :=
  fileSize f =? size.

Definition image_size_hit (size : Z) (f : AttachmentFile) : bool :=
  (fileSize f =? size) && hasImageExtension (fileName f).

Definition findAttachmentByExactName (l : AttachmentList) (name : cstring) : Z :=
  match first_unused (name_hit name) 0 l with
  | Some i => to_int (Z.of_nat i)
  | None => -1
  end.

Definition findAttachmentBySize (l : AttachmentList) (size : Z)
    (preferImage : bool) : Z :=
  match (if preferImage then first_unused (image_size_hit size) 0 l else None) with
  | Some i => to_int (Z.of_nat i)
  | None =>
      match first_unused (size_hit size) 0 l with
      | Some i => to_int (Z.of_nat i)
      | None => -1
      end
  end.

(** The two lookups of [main], in its order: the name when there is one,
    then the size when the name gave nothing and a size was parsed. *)
Definition resolve (l : AttachmentList) (r : parsed) : Z :=
  let idx := if hasName r then findAttachmentByExactName l (attName r) else -1 in
  if (idx <? 0) && (0 <=? attBytes r)
  then findAttachmentBySize l (attBytes r) (isImageMime (attMime r))
  else idx.

Definition mark_used (f : AttachmentFile) : AttachmentFile :=
  {| fileName := fileName f; fullPath := fullPath f;
     fileSize := fileSize f; used := true |}.

(** ** The output fragments *)

Definition writeImageInclude (relPath : cstring) : list byte :=
  [NL] ++ B "\par\noindent" ++ [NL]
  ++ B "\includegraphics[width=\linewidth,height=0.9\textheight,keepaspectratio]{\detokenize{"
  ++ relPath ++ B "}}" ++ [NL]
  ++ B "\par\medskip" ++ [NL; NL].

Definition writeNonImageAttachment (relPath : cstring) : list byte :=
  [NL] ++ B "\begin{quote}" ++ [NL]
  ++ B "\textbf{Attachment:} \detokenize{"
  ++ relPath ++ B "}" ++ [NL]
  ++ B "\end{quote}" ++ [NL; NL].

Definition unmatched_open : list byte :=
  [NL] ++ B "\begin{quote}" ++ [NL]
  ++ B "\textbf{Unmatched attachment placeholder:} ".

Definition unmatched_close : list byte := B "\end{quote}" ++ [NL; NL].

Definition paragraph_break : list byte := [NL; NL].

Definition forced_line_break : list byte := B "\\" ++ [NL].

(** ** stripPhoneFromFromLine *)

Definition stripPhoneFromFromLine (line : buffer) : buffer :=
  match strchr (cstr line) x3a with
  | None => line
  | Some colon =>
      match strchr (drop colon (cstr line)) x28 with
      | None => line
      | Some openParen => trimRight (<[(colon + openParen)%nat := NUL]> line)
      end
  end.

(** ** The body of main *)

(** The output path, written into [char outputPath[MaxPathLen]].  [None]
    when [strcat] writes past the end of the array. *)
Definition deriveOutputPath (inputPath : cstring) : option cstring :=
  match strrchr inputPath x2e with
  | Some (S k) =>
      let baseLen :=
        if (MaxPathLen <=? S k)%nat then (MaxPathLen - 5)%nat else S k in
      if (MaxPathLen <? baseLen + 5)%nat then None
      else Some (take baseLen inputPath ++ B ".tex")
  | _ => Some (snprintf_s MaxPathLen (inputPath ++ B ".tex"))
  end.

(** Which branch of the loop body a line took. *)
Inductive event : Type :=
| Dropped
| ImageInclude (idx : Z)
| NonImageAttachment (idx : Z)
| Unmatched
| ParagraphBreak
| Prose.

(** The variables of [main] that the loop reads and writes, and the
    record of the branches taken so far. *)
Record state : Type := mkState {
  st_list : AttachmentList;
  st_out : list byte;
  st_line : buffer;
  st_events : list event
}.

Definition LineSize : nat := Z.to_nat 8192.

(** The attachment branch, for the line as it stands after the metadata
    checks. *)
Definition attachment_branch (st : state) (line : buffer) : outcome state :=
  let r := parseAttachmentLine (cstr line) MaxPathLen 128 in
  let idx := resolve (st_list st) r in
  if 0 <=? idx then
    match st_list st !! Z.to_nat idx with
    | None => Fault
    | Some f =>
        let relPath := snprintf_s MaxPathLen (B "attachments/" ++ fileName f) in
        let image := isImageMime (attMime r) || hasImageExtension (fileName f) in
        Done {| st_list := alter mark_used (Z.to_nat idx) (st_list st);
                st_out := st_out st ++
                  (if image then writeImageInclude relPath
                   else writeNonImageAttachment relPath);
                st_line := line;
                st_events := st_events st ++
                  [if image then ImageInclude idx else NonImageAttachment idx] |}
    end
  else
    bind_outcome (writeLatexEscaped line) (fun o =>
      Done {| st_list := st_list st;
              st_out := st_out st ++ unmatched_open ++ o ++ unmatched_close;
              st_line := line;
              st_events := st_events st ++ [Unmatched] |}).

(** The normal text branch. *)
Definition prose_branch (st : state) (line0 : buffer) : outcome state :=
  let line := trimRight line0 in
  match line with
  | [] => Fault
  | c :: _ =>
      if decide (c = NUL) then
        Done {| st_list := st_list st;
                st_out := st_out st ++ paragraph_break;
                st_line := line;
                st_events := st_events st ++ [ParagraphBreak] |}
      else
        bind_outcome (writeLatexEscaped line) (fun o =>
          Done {| st_list := st_list st;
                  st_out := st_out st ++ o ++ forced_line_break;
                  st_line := line;
                  st_events := st_events st ++ [Prose] |})
  end.

(** One iteration of the loop, after [fgets] has filled [st_line]. *)
Definition process_line (st : state) : outcome state :=
  let line := trimRight (st_line st) in
  if startsWithIgnoreCase (cstr line) (B "Type:")
     || startsWithIgnoreCase (cstr line) (B "Received:") then
    Done {| st_list := st_list st; st_out := st_out st; st_line := line;
            st_events := st_events st ++ [Dropped] |}
  else
    let line :=
      if startsWithIgnoreCase (cstr line) (B "From:")
      then stripPhoneFromFromLine line else line in
    if startsWith (cstr line) (B "Attachment:")
    then attachment_branch st line
    else prose_branch st line.

(** [fgets] into [st_line]. *)
Definition read_line (st : state) (chunk : list byte) : state :=
  {| st_list := st_list st; st_out := st_out st;
     st_line := store (st_line st) (chunk ++ [NUL]);
     st_events := st_events st |}.

(** The [while(fgets(...))] loop over the bytes of the input file. *)
Fixpoint main_loop (fuel : nat) (input : list byte) (st : state)
  : outcome state :=
  match fuel with
  | O => OutOfFuel
  | S fuel' =>
      match fgets LineSize input with
      | None => Done st
      | Some (chunk, rest) =>
          bind_outcome (process_line (read_line st chunk)) (main_loop fuel' rest)
      end
  end.

Definition run (input : list byte) (st : state) : outcome state :=
  main_loop (S (length input)) input st.

(** The fixed text that [main] writes before and after the body. *)
Definition preamble : list byte :=
  B "\documentclass[a4paper,11pt]{article}" ++ [NL]
  ++ B "\usepackage[margin=25mm]{geometry}" ++ [NL]
  ++ B "\usepackage{graphicx}" ++ [NL]
  ++ B "\usepackage{fontspec}" ++ [NL]
  ++ B "\setmainfont{Latin Modern Roman}" ++ [NL]
  ++ B "\newfontfamily\emojifont{Segoe UI Emoji}" ++ [NL]
  ++ B "\DeclareTextFontCommand{\emoji}{\emojifont}" ++ [NL]
  ++ B "\setlength{\emergencystretch}{3em}" ++ [NL]
  ++ B "\begin{document}" ++ [NL; NL].

Definition closing : list byte := [NL] ++ B "\end{document}" ++ [NL].

(** The part of [main] from the first [fputs] to the last: what is
    written to [out], once both files are open and the catalog is
    loaded, for the bytes that reading [in] yields.  The arguments, the
    opening of the files and the exit status are not part of it. *)
Definition write_document (input : list byte) (l : AttachmentList)
    (line0 : buffer) : outcome (list byte) :=
  bind_outcome (run input (mkState l preamble line0 []))
    (fun st => Done (st_out st ++ closing)).

(** ** Vocabulary of the statements *)

(** The catalog has no more items than an [int] index can name. *)
Definition fits_int (l : AttachmentList) : Prop :=
  Z.of_nat (length l) <= INT_MAX.

(** The catalog index a line resolved to, if it did. *)
Definition resolved_index (e : event) : option Z :=
  match e with
  | ImageInclude idx | NonImageAttachment idx => Some idx
  | _ => None
  end.

(** The indices the lines resolved to, in the order of the lines. *)
Definition resolved (es : list event) : list Z := omap resolved_index es.

(** How a catalog [l] has become [l'] while lines resolved to the
    indices [rs]: no index twice, each one an entry that was unused in
    [l], and [l'] is [l] with exactly those entries marked. *)
Definition advance (l : AttachmentList) (rs : list Z) (l' : AttachmentList)
  : Prop :=
  NoDup rs
  /\ (forall z : Z, z ∈ rs ->
        exists (i : nat) (a : AttachmentFile),
          z = Z.of_nat i /\ l !! i = Some a /\ used a = false)
  /\ length l' = length l
  /\ forall (i : nat) (a : AttachmentFile),
       l !! i = Some a ->
       l' !! i = Some (if bool_decide (Z.of_nat i ∈ rs) then mark_used a else a).

(** The array [buf] holds the C string [s]: the bytes of [s], none of
    them NUL, then the terminator, then whatever the array held. *)
Definition holds (buf : buffer) (s : cstring) : Prop :=
  Forall (fun c : byte => c <> NUL) s /\ exists rest : list byte, buf = s ++ NUL :: rest.

(** A string without the white space at its end: what [trimRight]
    leaves before the terminator. *)
Fixpoint rstrip (s : cstring) : cstring :=
  match s with
  | [] => []
  | c :: s' =>
      match rstrip s' with
      | [] => if is_trimmed c then [] else [c]
      | t => c :: t
      end
  end.

(** A string letter by letter with upper case folded to lower case, as
    [startsWithIgnoreCase] compares it; [p] is [q] in some casing when
    the two fold to the same. *)
Definition fold_case (s : cstring) : list Z :=
  (fun c : byte => tolower (byte_val c)) <$> s.

(** Every byte of [s] with the high bit set has the bytes that
    [utf8CharLen] announces for it before the end of [s]. *)
Definition complete (s : cstring) : Prop :=
  forall (i : nat) (c : byte),
    s !! i = Some c -> 0x80 <= byte_val c ->
    (i + Z.to_nat (utf8CharLen c) <= length s)%nat.

(** The bytes that the loop of [writeLatexEscaped] reads as whole steps:
    a byte below 0x80 that is not NUL, or a byte from 0x80 on together
    with the bytes that [utf8CharLen] announces after it. *)
Inductive scanned : cstring -> Prop :=
| scanned_nil : scanned []
| scanned_ascii (c : byte) (s : cstring) :
    c <> NUL -> byte_val c < 0x80 -> scanned s -> scanned (c :: s)
| scanned_multi (c : byte) (u s : cstring) :
    0x80 <= byte_val c -> length (c :: u) = Z.to_nat (utf8CharLen c) ->
    scanned s -> scanned ((c :: u) ++ s).

(** A continuation byte, [10xxxxxx]. *)
Definition is_continuation (c : byte) : bool :=
  Z.land (byte_val c) 0xC0 =? 0x80.

(** A multi-byte UTF-8 sequence by its form: a lead byte that announces
    two, three or four bytes, and that many bytes less one of
    continuation. *)
Definition utf8_sequence (sq : cstring) : Prop :=
  exists (c : byte) (u : cstring),
    sq = c :: u /\ 2 <= utf8CharLen c
    /\ length sq = Z.to_nat (utf8CharLen c)
    /\ forallb is_continuation u = true.

(** [sq] occurs in [l] as a run of consecutive bytes. *)
Definition occurs (sq l : list byte) : Prop :=
  exists a b : list byte, l = a ++ sq ++ b.

Definition occursb (sq l : list byte) : bool :=
  existsb (fun k : nat => bool_decide (take (length sq) (drop k l) = sq))
          (seq 0 (S (length l))).

(** Replace a closed term, such as a string literal, by its value. *)
Ltac literal t := let r := eval vm_compute in t in change t with r in *.

(** ** Vocabulary of the further properties *)

(** The ten bytes that the [switch] of [writeLatexEscaped] replaces. *)
Definition reserved (c : byte) : bool :=
  bool_decide (c ∈ [x5c; x7b; x7d; x23; x24; x25; x26; x5f; x5e; x7e]).

(** A byte below 0x80 other than the terminator. *)
Definition ascii_char (c : byte) : Prop := c <> NUL /\ byte_val c < 0x80.

(** The bytes [trimRight] removes: space, tab, line feed, vertical tab,
    form feed and carriage return. *)
Definition white_space : list byte := [x20; x09; x0a; x0b; x0c; x0d].

(** The extensions [hasImageExtension] accepts, in lower case. *)
Definition image_extensions : list cstring :=
  [B "png"; B "jpg"; B "jpeg"; B "gif"; B "bmp"; B "tif"; B "tiff"].

(** The directory entries [loadAttachmentsDir] keeps: not [.] or [..],
    [stat] succeeds and says regular file. *)
Definition is_loaded (ent : dirent) : bool :=
  negb (bool_decide (d_name ent = B ".") || bool_decide (d_name ent = B ".."))
  && match d_stat ent with
     | Some (isreg, _) => isreg
     | None => false
     end.

Definition stat_size (ent : dirent) : Z :=
  match d_stat ent with
  | Some (_, size) => size
  | None => 0
  end.

(** A byte below 0x80, the terminator included. *)
Definition low (c : byte) : Prop := byte_val c < 0x80.

(** The parts of a reference line as the exporter writes it: a name
    without opening parenthesis and without white space at either end,
    a mime type without comma, closing parenthesis or white space at its
    end, decimal digits, all without NUL and within their arrays. *)
Definition reference_parts (name mime digits : cstring) : Prop :=
  Forall (fun c : byte => c <> NUL) name
  /\ Forall (fun c : byte => c <> NUL) mime
  /\ name <> [] /\ (x28 ∉ name)
  /\ (forall c : byte, head name = Some c -> c ∉ white_space)
  /\ (forall c : byte, last name = Some c -> c ∉ white_space)
  /\ (length name + 12 < MaxPathLen)%nat
  /\ (x2c ∉ mime) /\ (x29 ∉ mime)
  /\ (forall c : byte, last mime = Some c -> c ∉ white_space)
  /\ (length mime < 128)%nat
  /\ digits <> [] /\ Forall (fun d : byte => is_digit d = true) digits
  /\ (length (mime ++ B ", " ++ digits ++ B " bytes") < MaxPathLen)%nat.

(** The reference line written from its parts. *)
Definition reference_line (name mime digits : cstring) : cstring :=
  B "Attachment: " ++ name ++ B " (" ++ mime ++ B ", " ++ digits ++ B " bytes)".

(** * Properties *)

(** ** The matcher *)

Lemma to_int_small (z : Z) : 0 <= z <= INT_MAX -> to_int z = z.
Proof.
  unfold to_int, INT_MAX. intros Hz.
  rewrite Z.mod_small by lia. lia.
Qed.

Section Matcher.


Variable hit : AttachmentFile -> bool.

Lemma first_unused_Some (items : list AttachmentFile) :
  forall (i0 i : nat),
    first_unused hit i0 items = Some i ->
    exists (k : nat) (f : AttachmentFile),
      i = (i0 + k)%nat /\ items !! k = Some f /\ used f = false /\ hit f = true
      /\ forall (j : nat) (g : AttachmentFile),
           (j < k)%nat -> items !! j = Some g -> used g = false -> hit g = false.
Proof.
  assert (Hskip : forall (a : AttachmentFile) (rest : list AttachmentFile) (i0 i : nat),
    (used a = true \/ hit a = false) ->
    (exists (k : nat) (f : AttachmentFile),
      i = (S i0 + k)%nat /\ rest !! k = Some f /\ used f = false /\ hit f = true
      /\ forall (j : nat) (g : AttachmentFile),
           (j < k)%nat -> rest !! j = Some g -> used g = false -> hit g = false) ->
    exists (k : nat) (f : AttachmentFile),
      i = (i0 + k)%nat /\ (a :: rest) !! k = Some f /\ used f = false /\ hit f = true
      /\ forall (j : nat) (g : AttachmentFile),
           (j < k)%nat -> (a :: rest) !! j = Some g -> used g = false -> hit g = false).
  { intros a rest i0 i Ha (k & f & -> & Hk & Hf & Hhit & Hmin).
    exists (S k), f. split_and!; [lia | done | done | done |].
    intros [|j] g Hj Hg Hug; simpl in Hg.
    - injection Hg as <-. destruct Ha; congruence.
    - apply (Hmin j g); [lia | done | done]. }
  induction items as [|a items IH]; intros i0 i H; simpl in H; [discriminate|].
  destruct (used a) eqn:Hu; [|destruct (hit a) eqn:Hh].
  - apply Hskip; [by left | by apply IH].
  - injection H as <-. exists O, a. split_and!; [lia | done | done | done |].
    intros j g Hj. lia.
  - apply Hskip; [by right | by apply IH].
Qed.

Lemma first_unused_None (items : list AttachmentFile) :
  forall (i0 : nat),
    first_unused hit i0 items = None ->
    forall (k : nat) (f : AttachmentFile),
      items !! k = Some f -> used f = false -> hit f = false.
Proof.
  induction items as [|a items IH]; intros i0 H k f Hk Hu; [discriminate|].
  simpl in H. destruct k as [|k]; simpl in Hk.
  - injection Hk as ->. rewrite Hu in H.
    destruct (hit f); [discriminate | reflexivity].
  - destruct (used a); [|destruct (hit a); [discriminate|]]; eauto.
Qed.

Lemma first_unused_found (items : list AttachmentFile) (k : nat)
    (f : AttachmentFile) (i0 : nat) :
  items !! k = Some f -> used f = false -> hit f = true ->
  exists i : nat, first_unused hit i0 items = Some i.
Proof.
  intros Hk Hu Hh.
  destruct (first_unused hit i0 items) as [i|] eqn:E; [eauto|].
  pose proof (first_unused_None _ _ E _ _ Hk Hu). congruence.
Qed.

End Matcher.

Lemma index_to_int (l : AttachmentList) (i : nat) (f : AttachmentFile) :
  fits_int l -> l !! i = Some f -> to_int (Z.of_nat i) = Z.of_nat i.
Proof.
  intros Hfit Hi. apply lookup_lt_Some in Hi.
  apply to_int_small. unfold fits_int in Hfit. lia.
Qed.

Lemma name_hit_true (name : cstring) (f : AttachmentFile) :
  name_hit name f = true <-> fileName f = name.
Proof. unfold name_hit, strcmp_eq. apply bool_decide_eq_true. Qed.

Lemma name_hit_false (name : cstring) (f : AttachmentFile) :
  name_hit name f = false <-> fileName f <> name.
Proof. unfold name_hit, strcmp_eq. apply bool_decide_eq_false. Qed.

(** A name lookup that finds something returns the first item that is
    unused and bears the name. *)
Lemma findAttachmentByExactName_nonneg (l : AttachmentList) (name : cstring) :
  fits_int l -> 0 <= findAttachmentByExactName l name ->
  exists (i : nat) (a : AttachmentFile),
    findAttachmentByExactName l name = Z.of_nat i
    /\ l !! i = Some a /\ used a = false /\ fileName a = name
    /\ forall (j : nat) (g : AttachmentFile),
         (j < i)%nat -> l !! j = Some g -> used g = false -> fileName g <> name.
Proof.
  intros Hfit Hpos. unfold findAttachmentByExactName in *.
  destruct (first_unused (name_hit name) 0 l) as [i|] eqn:E; [|lia].
  destruct (first_unused_Some _ _ _ _ E) as (k & a & -> & Hk & Hu & Hh & Hmin).
  simpl. exists k, a. split_and!; try done.
  - by eapply index_to_int.
  - by apply name_hit_true.
  - intros j g Hj Hg Hug. apply name_hit_false. by eapply Hmin.
Qed.

Lemma findAttachmentByExactName_found (l : AttachmentList) (name : cstring)
    (k : nat) (f : AttachmentFile) :
  fits_int l -> l !! k = Some f -> used f = false -> fileName f = name ->
  0 <= findAttachmentByExactName l name.
Proof.
  intros Hfit Hk Hu Hn. unfold findAttachmentByExactName.
  destruct (first_unused_found (name_hit name) l k f 0 Hk Hu) as [i E].
  { by apply name_hit_true. }
  rewrite E.
  destruct (first_unused_Some _ _ _ _ E) as (k' & a & -> & Hk' & _).
  simpl. rewrite (index_to_int l k' a) by done. lia.
Qed.

Lemma findAttachmentByExactName_none (l : AttachmentList) (name : cstring) :
  (forall (k : nat) (f : AttachmentFile),
     l !! k = Some f -> used f = false -> fileName f <> name) ->
  findAttachmentByExactName l name = -1.
Proof.
  intros Hno. unfold findAttachmentByExactName.
  destruct (first_unused (name_hit name) 0 l) as [i|] eqn:E; [|done].
  destruct (first_unused_Some _ _ _ _ E) as (k & a & _ & Hk & Hu & Hh & _).
  apply name_hit_true in Hh. by destruct (Hno k a).
Qed.

Lemma findAttachmentBySize_nonneg (l : AttachmentList) (size : Z)
    (preferImage : bool) :
  fits_int l -> 0 <= findAttachmentBySize l size preferImage ->
  exists (i : nat) (a : AttachmentFile),
    findAttachmentBySize l size preferImage = Z.of_nat i
    /\ l !! i = Some a /\ used a = false /\ fileSize a = size.
Proof.
  intros Hfit Hpos. unfold findAttachmentBySize in *.
  destruct (if preferImage then first_unused (image_size_hit size) 0 l else None)
    as [i|] eqn:E1.
  - destruct preferImage; [|discriminate].
    destruct (first_unused_Some _ _ _ _ E1) as (k & a & -> & Hk & Hu & Hh & _).
    simpl. exists k, a. split_and!; try done; [by eapply index_to_int|].
    unfold image_size_hit in Hh. apply andb_true_iff in Hh as [Hh _]. lia.
  - destruct (first_unused (size_hit size) 0 l) as [i|] eqn:E2; [|lia].
    destruct (first_unused_Some _ _ _ _ E2) as (k & a & -> & Hk & Hu & Hh & _).
    simpl. exists k, a. split_and!; try done; [by eapply index_to_int|].
    unfold size_hit in Hh. lia.
Qed.


(** Whatever [resolve] returns that is not negative is the index of an
    item that is not yet used. *)
Lemma resolve_nonneg (l : AttachmentList) (r : parsed) :
  fits_int l -> 0 <= resolve l r ->
  exists (i : nat) (a : AttachmentFile),
    resolve l r = Z.of_nat i /\ l !! i = Some a /\ used a = false.
Proof.
  intros Hfit Hpos. unfold resolve in *.
  destruct ((_ <? 0) && (0 <=? attBytes r)) eqn:E.
  - destruct (findAttachmentBySize_nonneg l _ _ Hfit Hpos) as (i & a & ? & ? & ? & _).
    by exists i, a.
  - destruct (hasName r); [|lia].
    destruct (findAttachmentByExactName_nonneg l _ Hfit Hpos) as (i & a & ? & ? & ? & _).
    by exists i, a.
Qed.

(** C1.  A reference that carries a name (and any size and mime type)
    resolves, when some unused catalog entry bears exactly that name, to
    the first such entry in catalog order, whatever size and mime type
    the reference declares: the size is not consulted.  The catalog is
    any list whose indices fit the [int] that the lookups return. *)
Theorem name_match_has_priority (l : AttachmentList) (r : parsed)
    (k : nat) (f : AttachmentFile) :
  fits_int l -> hasName r = true ->
  l !! k = Some f -> used f = false -> fileName f = attName r ->
  exists (i : nat) (a : AttachmentFile),
    resolve l r = Z.of_nat i
    /\ l !! i = Some a /\ used a = false /\ fileName a = attName r
    /\ (forall (j : nat) (g : AttachmentFile),
          (j < i)%nat -> l !! j = Some g -> used g = false ->
          fileName g <> attName r)
    /\ (forall (mime : cstring) (bytes : Z),
          resolve l (mkParsed (attName r) mime bytes true) = Z.of_nat i).
Proof.
  intros Hfit Hname Hk Hu Hn.
  pose proof (findAttachmentByExactName_found l _ k f Hfit Hk Hu Hn) as Hpos.
  destruct (findAttachmentByExactName_nonneg l _ Hfit Hpos)
    as (i & a & Hi & Ha & Hua & Hna & Hmin).
  assert (Hres : forall (mime : cstring) (bytes : Z),
             resolve l (mkParsed (attName r) mime bytes true) = Z.of_nat i).
  { intros mime bytes. unfold resolve. simpl. rewrite Hi.
    replace (Z.of_nat i <? 0) with false by lia. done. }
  exists i, a. split_and!; try done.
  destruct r as [n m b h]. simpl in *. subst h. apply Hres.
Qed.

(** The scenario of C1: the name is that of the non-image entry A, the
    size and the image mime type are those of the image entry B, which
    comes first; the reference resolves to A. *)
Lemma name_match_has_priority_witness :
  let A := mkAttachmentFile (B "notes.pdf") (B "./attachments/notes.pdf") 2048 false in
  let Bimg := mkAttachmentFile (B "IMG_7.png") (B "./attachments/IMG_7.png") 311164 false in
  let r := mkParsed (B "notes.pdf") (B "image/png") 311164 true in
  fits_int [Bimg; A] /\ hasName r = true /\ resolve [Bimg; A] r = 1
  /\ exists (i : nat) (a : AttachmentFile),
       resolve [Bimg; A] r = Z.of_nat i /\ [Bimg; A] !! i = Some a
       /\ used a = false /\ fileName a = attName r
       /\ (forall (j : nat) (g : AttachmentFile),
             (j < i)%nat -> [Bimg; A] !! j = Some g -> used g = false ->
             fileName g <> attName r)
       /\ (forall (mime : cstring) (bytes : Z),
             resolve [Bimg; A] (mkParsed (attName r) mime bytes true) = Z.of_nat i).
Proof.
  intros A Bimg r.
  assert (Hfit : fits_int [Bimg; A]) by (unfold fits_int, INT_MAX; simpl; lia).
  split_and!; [exact Hfit | reflexivity | reflexivity |].
  apply (name_match_has_priority [Bimg; A] r 1 A Hfit);
    reflexivity.
Defined.

(** C6 as the code has it.  Of two entries with the same name, a name
    lookup returns the later one only when the earlier one is already
    used; while the earlier one is unused no lookup of that name
    returns the later one. *)
Theorem later_duplicate_needs_first_used (l : AttachmentList) (name : cstring)
    (i j : nat) (fi fj : AttachmentFile) :
  fits_int l -> (i < j)%nat ->
  l !! i = Some fi -> l !! j = Some fj ->
  fileName fi = name -> fileName fj = name ->
  (used fi = false -> findAttachmentByExactName l name <> Z.of_nat j)
  /\ (findAttachmentByExactName l name = Z.of_nat j -> used fi = true).
Proof.
  intros Hfit Hij Hi Hj Hni Hnj.
  assert (Hkey : findAttachmentByExactName l name = Z.of_nat j -> used fi = true).
  { intros E.
    destruct (findAttachmentByExactName_nonneg l name Hfit)
      as (k & a & Hk & _ & _ & _ & Hmin); [lia|].
    assert (k = j) as -> by lia.
    destruct (used fi) eqn:Hu; [done|].
    by destruct (Hmin i fi Hij Hi Hu). }
  split; [|exact Hkey].
  intros Hu E. rewrite (Hkey E) in Hu. discriminate.
Qed.

Lemma later_duplicate_needs_first_used_witness :
  let first := mkAttachmentFile (B "a.pdf") (B "./attachments/a.pdf") 10 true in
  let later := mkAttachmentFile (B "a.pdf") (B "./attachments/a.pdf") 20 false in
  findAttachmentByExactName [first; later] (B "a.pdf") = 1
  /\ (used first = false ->
      findAttachmentByExactName [first; later] (B "a.pdf") <> Z.of_nat 1)
  /\ (findAttachmentByExactName [first; later] (B "a.pdf") = Z.of_nat 1 ->
      used first = true).
Proof.
  intros first later. split; [reflexivity|].
  apply (later_duplicate_needs_first_used [first; later] (B "a.pdf") 0 1 first later).
  - unfold fits_int, INT_MAX. simpl. lia.
  - lia.
  - reflexivity.
  - reflexivity.
  - reflexivity.
  - reflexivity.
Defined.

(** C6 as stated fails: a directory listing with the name a.pdf twice
    loads two entries, and of two lines that name a.pdf (with a size no
    file has) the second resolves, by name, to the later entry. *)
Lemma later_duplicate_is_found :
  let listing := [mkDirent (B "a.pdf") (Some (true, 10));
                  mkDirent (B "a.pdf") (Some (true, 20))] in
  let l := loadAttachmentsDir (B "./attachments") listing attachmentListInit in
  let input := B "Attachment: a.pdf (application/pdf, 999 bytes)" ++ [NL]
               ++ B "Attachment: a.pdf (application/pdf, 999 bytes)" ++ [NL] in
  fileName <$> l = [B "a.pdf"; B "a.pdf"]
  /\ findAttachmentByExactName l (B "a.pdf") = 0
  /\ findAttachmentByExactName (alter mark_used 0%nat l) (B "a.pdf") = 1
  /\ findAttachmentBySize (alter mark_used 0%nat l) 999 false = -1
  /\ (st_events <$> run input (mkState l [] [] []))
     = Done [NonImageAttachment 0; NonImageAttachment 1].
Proof. vm_compute. repeat split. Qed.

(** ** Consumption: every entry is matched at most once *)

Lemma bind_outcome_Done {A C : Type} (m : outcome A) (k : A -> outcome C) (c : C) :
  bind_outcome m k = Done c -> exists a : A, m = Done a /\ k a = Done c.
Proof. destruct m as [a| |]; simpl; [eauto | discriminate | discriminate]. Qed.

Lemma resolved_snoc (es : list event) (e : event) :
  resolved (es ++ [e]) = resolved es ++ resolved [e].
Proof. unfold resolved. apply omap_app. Qed.

Lemma mark_used_idemp (a : AttachmentFile) : mark_used (mark_used a) = mark_used a.
Proof. reflexivity. Qed.

Lemma advance_refl (l : AttachmentList) : advance l [] l.
Proof.
  split_and!; [constructor | | done |].
  - intros z Hz. by apply elem_of_nil in Hz.
  - intros i a Hi. rewrite bool_decide_eq_false_2; [done|]. apply not_elem_of_nil.
Qed.

Lemma advance_one (l : AttachmentList) (i : nat) (a : AttachmentFile) :
  l !! i = Some a -> used a = false ->
  advance l [Z.of_nat i] (alter mark_used i l).
Proof.
  intros Hi Hu. split_and!.
  - apply NoDup_singleton.
  - intros z ->%list_elem_of_singleton. eauto.
  - apply length_alter.
  - intros j g Hj. destruct (decide (i = j)) as [->|Hne].
    + rewrite list_lookup_alter_eq, Hj. simpl.
      rewrite bool_decide_eq_true_2; [done|]. by apply list_elem_of_singleton.
    + rewrite list_lookup_alter_ne by done. rewrite Hj.
      rewrite bool_decide_eq_false_2; [done|].
      rewrite list_elem_of_singleton. lia.
Qed.

Lemma advance_trans (l1 l2 l3 : AttachmentList) (rs1 rs2 : list Z) :
  advance l1 rs1 l2 -> advance l2 rs2 l3 -> advance l1 (rs1 ++ rs2) l3.
Proof.
  intros (Hnd1 & Hun1 & Hlen1 & Hl1) (Hnd2 & Hun2 & Hlen2 & Hl2).
  assert (Hback : forall z : Z, z ∈ rs2 ->
            (z ∉ rs1) /\ exists (i : nat) (a : AttachmentFile),
              z = Z.of_nat i /\ l1 !! i = Some a /\ used a = false).
  { intros z Hz. destruct (Hun2 z Hz) as (i & a2 & -> & Hi2 & Hu2).
    assert (is_Some (l1 !! i)) as [a1 Hi1].
    { apply lookup_lt_is_Some. rewrite <- Hlen1. by eapply lookup_lt_Some. }
    pose proof (Hl1 i a1 Hi1) as Hi2'. rewrite Hi2 in Hi2'.
    injection Hi2' as ->. case_bool_decide as Hin.
    - simpl in Hu2. discriminate.
    - split; [done|]. eauto. }
  split_and!.
  - apply NoDup_app. split_and!; [done | | done].
    intros z Hz1 Hz2. by destruct (Hback z Hz2).
  - intros z [Hz|Hz]%elem_of_app; [by apply Hun1 | by apply Hback].
  - congruence.
  - intros i a Hi. rewrite (Hl2 i _ (Hl1 i a Hi)). f_equal.
    pose proof (elem_of_app rs1 rs2 (Z.of_nat i)) as Happ.
    repeat case_bool_decide; try done; exfalso; tauto.
Qed.

Lemma attachment_branch_advance (st st' : state) (line : buffer) :
  fits_int (st_list st) -> attachment_branch st line = Done st' ->
  exists rs : list Z,
    resolved (st_events st') = resolved (st_events st) ++ rs
    /\ advance (st_list st) rs (st_list st').
Proof.
  intros Hfit. unfold attachment_branch.
  set (r := parseAttachmentLine (cstr line) MaxPathLen 128).
  destruct (0 <=? resolve (st_list st) r) eqn:E.
  - destruct (resolve_nonneg (st_list st) r Hfit) as (i & a & Hr & Hi & Hu); [lia|].
    rewrite Hr, Nat2Z.id, Hi. intros [= <-]. simpl.
    exists [Z.of_nat i]. split.
    + rewrite resolved_snoc. by destruct (_ || _).
    + by apply (advance_one _ i a).
  - intros (o & _ & [= <-])%bind_outcome_Done. simpl.
    exists []. split; [by rewrite resolved_snoc | apply advance_refl].
Qed.

Lemma prose_branch_advance (st st' : state) (line : buffer) :
  prose_branch st line = Done st' ->
  resolved (st_events st') = resolved (st_events st) ++ []
  /\ advance (st_list st) [] (st_list st').
Proof.
  unfold prose_branch. destruct (trimRight line) as [|c t]; [discriminate|].
  destruct (decide (c = NUL)).
  - intros [= <-]. simpl. split; [by rewrite resolved_snoc | apply advance_refl].
  - intros (o & _ & [= <-])%bind_outcome_Done. simpl.
    split; [by rewrite resolved_snoc | apply advance_refl].
Qed.

Lemma process_line_advance (st st' : state) :
  fits_int (st_list st) -> process_line st = Done st' ->
  exists rs : list Z,
    resolved (st_events st') = resolved (st_events st) ++ rs
    /\ advance (st_list st) rs (st_list st').
Proof.
  intros Hfit. unfold process_line.
  destruct (_ || _).
  - intros [= <-]. simpl. exists []. split; [by rewrite resolved_snoc | apply advance_refl].
  - destruct (startsWith _ _).
    + by apply attachment_branch_advance.
    + intros H. exists []. by apply prose_branch_advance in H.
Qed.

Lemma main_loop_advance (fuel : nat) :
  forall (input : list byte) (st st' : state),
    fits_int (st_list st) -> main_loop fuel input st = Done st' ->
    exists rs : list Z,
      resolved (st_events st') = resolved (st_events st) ++ rs
      /\ advance (st_list st) rs (st_list st').
Proof.
  induction fuel as [|fuel IH]; intros input st st' Hfit H; simpl in H; [discriminate|].
  destruct (fgets LineSize input) as [[chunk rest]|].
  - apply bind_outcome_Done in H as (st1 & H1 & H2).
    apply process_line_advance in H1 as (rs1 & Hr1 & Ha1); [|done].
    simpl in Hr1, Ha1.
    apply IH in H2 as (rs2 & Hr2 & Ha2).
    + exists (rs1 ++ rs2). split.
      * rewrite Hr2, Hr1. by rewrite app_assoc.
      * by eapply advance_trans.
    + destruct Ha1 as (_ & _ & Hlen & _). unfold fits_int in *. lia.
  - injection H as <-. exists []. split; [by rewrite app_nil_r | apply advance_refl].
Qed.

(** C2.  Over any stretch of a run, from a state [st] to a later state
    [st'], the lines resolved to pairwise distinct catalog indices; each
    of these was the index of an entry whose [used] flag was still false
    (in [st], and so when it was matched) and is true in [st']; every
    other entry is unchanged, so that a flag goes from false to true only
    by a match and no flag goes back to false.  The last part is the
    same for a single lookup: what [resolve] returns is never a used
    entry. *)
Theorem consumption_is_exclusive (fuel : nat) (input : list byte)
    (st st' : state) :
  fits_int (st_list st) -> main_loop fuel input st = Done st' ->
  (exists rs : list Z,
     resolved (st_events st') = resolved (st_events st) ++ rs
     /\ NoDup rs
     /\ (forall z : Z, z ∈ rs ->
           exists (i : nat) (a : AttachmentFile),
             z = Z.of_nat i /\ st_list st !! i = Some a /\ used a = false
             /\ st_list st' !! i = Some (mark_used a))
     /\ (forall (i : nat) (a : AttachmentFile),
           st_list st !! i = Some a -> Z.of_nat i ∉ rs ->
           st_list st' !! i = Some a)
     /\ (forall (i : nat) (a : AttachmentFile),
           st_list st !! i = Some a -> used a = true ->
           st_list st' !! i = Some a)
     /\ length (st_list st') = length (st_list st))
  /\ (forall (l : AttachmentList) (r : parsed),
        fits_int l -> 0 <= resolve l r ->
        exists (i : nat) (a : AttachmentFile),
          resolve l r = Z.of_nat i /\ l !! i = Some a /\ used a = false).
Proof.
  intros Hfit H. split; [|apply resolve_nonneg].
  destruct (main_loop_advance fuel input st st' Hfit H)
    as (rs & Hrs & Hnd & Hun & Hlen & Hl).
  exists rs. split_and!; try done.
  - intros z Hz. destruct (Hun z Hz) as (i & a & -> & Hi & Hu).
    exists i, a. split_and!; try done.
    rewrite (Hl i a Hi). by rewrite bool_decide_eq_true_2.
  - intros i a Hi Hni. rewrite (Hl i a Hi). by rewrite bool_decide_eq_false_2.
  - intros i a Hi Hu. rewrite (Hl i a Hi). case_bool_decide; [|done].
    destruct a as [n p s u]. simpl in Hu. by subst u.
Qed.

Lemma consumption_is_exclusive_witness :
  let l := [mkAttachmentFile (B "a.bin") (B "./attachments/a.bin") 7 false;
            mkAttachmentFile (B "b.bin") (B "./attachments/b.bin") 7 false] in
  let st := mkState l [] [] [] in
  let input := B "Attachment: no filename (application/zip, 7 bytes)" ++ [NL]
               ++ B "Attachment: no filename (application/zip, 7 bytes)" ++ [NL] in
  fits_int (st_list st)
  /\ exists st' : state,
       main_loop 3 input st = Done st'
       /\ resolved (st_events st') = [0; 1]
       /\ exists rs : list Z,
            resolved (st_events st') = resolved (st_events st) ++ rs /\ NoDup rs.
Proof.
  intros l st input.
  assert (Hfit : fits_int (st_list st)) by (unfold fits_int, INT_MAX; simpl; lia).
  split; [exact Hfit|].
  eexists. split; [vm_compute; reflexivity|]. split; [reflexivity|].
  match goal with
  | |- context [st_events ?s'] =>
      destruct (consumption_is_exclusive 3 input st s' Hfit)
        as [(rs & Hrs & Hnd & _) _]; [vm_compute; reflexivity|]
  end.
  exists rs. split; [exact Hrs | exact Hnd].
Defined.

(** ** trimRight and the prefixes of a line *)

Lemma cstr_app_NUL (s rest : list byte) :
  Forall (fun c : byte => c <> NUL) s -> cstr (s ++ NUL :: rest) = s.
Proof.
  induction 1 as [|c s Hc _ IH]; cbn [app cstr].
  - by destruct (decide (NUL = NUL)).
  - destruct (decide (c = NUL)); [done|]. by rewrite IH.
Qed.

Lemma cstr_holds (buf : buffer) (s : cstring) : holds buf s -> cstr buf = s.
Proof. intros [Hs [rest ->]]. by apply cstr_app_NUL. Qed.

Lemma rstrip_snoc (s : cstring) (c : byte) :
  rstrip (s ++ [c]) = if is_trimmed c then rstrip s else s ++ [c].
Proof.
  induction s as [|a s IH]; simpl; [done|].
  rewrite IH. destruct (is_trimmed c); [done|]. by destruct s.
Qed.

Lemma rstrip_app_keep (p t : cstring) (c : byte) :
  is_trimmed c = false -> rstrip (p ++ c :: t) = p ++ c :: rstrip t.
Proof.
  intros Hc. induction p as [|a p IH]; simpl.
  - rewrite Hc. by destruct (rstrip t).
  - rewrite IH. by destruct p.
Qed.

Lemma rstrip_prefix (s : cstring) : rstrip s `prefix_of` s.
Proof.
  induction s as [|c s IH] using rev_ind; [done|].
  rewrite rstrip_snoc. destruct (is_trimmed c); [by apply prefix_app_r | done].
Qed.

Lemma rstrip_idemp (s : cstring) : rstrip (rstrip s) = rstrip s.
Proof.
  induction s as [|c s IH] using rev_ind; [done|].
  rewrite rstrip_snoc. destruct (is_trimmed c) eqn:Hc; [done|].
  by rewrite rstrip_snoc, Hc.
Qed.

Lemma rstrip_no_NUL (s : cstring) :
  Forall (fun c : byte => c <> NUL) s -> Forall (fun c : byte => c <> NUL) (rstrip s).
Proof.
  intros Hs. destruct (rstrip_prefix s) as [k Hk].
  rewrite Hk in Hs. by apply Forall_app in Hs as [? _].
Qed.

Lemma trimRight_loop_app (s : cstring) :
  forall rest : list byte,
    exists rest' : list byte,
      trimRight_loop (s ++ NUL :: rest) (length s) = rstrip s ++ NUL :: rest'.
Proof.
  induction s as [|c s IH] using rev_ind; intros rest; [by exists rest|].
  rewrite length_app, Nat.add_1_r. simpl.
  rewrite <- app_assoc. simpl.
  rewrite list_lookup_middle by done. rewrite rstrip_snoc.
  destruct (is_trimmed c).
  - replace (<[length s:=NUL]> (s ++ c :: NUL :: rest)) with (s ++ NUL :: NUL :: rest).
    + apply IH.
    + rewrite <- (Nat.add_0_r (length s)) at 1. by rewrite insert_app_r.
  - exists rest. by rewrite <- app_assoc.
Qed.

Lemma trimRight_holds (buf : buffer) (s : cstring) :
  holds buf s -> holds (trimRight buf) (rstrip s).
Proof.
  intros Hb. pose proof (cstr_holds _ _ Hb) as Hc.
  destruct Hb as [Hs [rest ->]].
  split; [by apply rstrip_no_NUL|].
  unfold trimRight, strlen. rewrite Hc. apply trimRight_loop_app.
Qed.

Lemma trimRight_fixed (buf : buffer) (s : cstring) :
  holds buf s -> rstrip s = s -> trimRight buf = buf.
Proof.
  intros Hb Hfix. pose proof (cstr_holds _ _ Hb) as Hc.
  destruct Hb as [Hs [rest ->]].
  unfold trimRight, strlen. rewrite Hc.
  destruct s as [|c s _] using rev_ind; [done|].
  rewrite length_app, Nat.add_1_r. simpl.
  rewrite <- app_assoc. simpl. rewrite list_lookup_middle by done.
  rewrite rstrip_snoc in Hfix. destruct (is_trimmed c); [|done].
  pose proof (rstrip_prefix s) as Hp. rewrite Hfix in Hp.
  apply prefix_length in Hp. rewrite length_app in Hp. simpl in Hp. lia.
Qed.

Lemma trimRight_idemp (buf : buffer) (s : cstring) :
  holds buf s -> trimRight (trimRight buf) = trimRight buf.
Proof.
  intros Hb. apply (trimRight_fixed _ (rstrip s)).
  - by apply trimRight_holds.
  - apply rstrip_idemp.
Qed.

Lemma tolower_colon (e : byte) : tolower (byte_val e) = 58 -> e = x3a.
Proof. destruct e; vm_compute; intros H; first [reflexivity | discriminate H]. Qed.

Lemma is_trimmed_colon : is_trimmed x3a = false.
Proof. reflexivity. Qed.

Lemma fold_case_length (p q : cstring) :
  fold_case p = fold_case q -> length p = length q.
Proof.
  intros H. apply (f_equal length) in H. unfold fold_case in H.
  by rewrite !length_fmap in H.
Qed.

Lemma fold_case_colon_last (p q : cstring) :
  fold_case p = fold_case (q ++ [x3a]) ->
  exists p' : cstring, p = p' ++ [x3a] /\ fold_case p' = fold_case q.
Proof.
  unfold fold_case. rewrite fmap_app. intros H.
  apply fmap_app_inv in H as (p1 & p2 & H1 & H2 & ->).
  destruct p2 as [|e [|? ?]]; try discriminate H2.
  injection H2 as H2. symmetry in H2. apply tolower_colon in H2 as ->.
  by exists p1.
Qed.

Lemma startsWithIgnoreCase_fold (q : cstring) :
  forall p t : cstring,
    fold_case p = fold_case q -> startsWithIgnoreCase (p ++ t) q = true.
Proof.
  induction q as [|c q IH]; intros p t H; [done|].
  destruct p as [|a p]; [discriminate|]. injection H as Ha Hp.
  simpl. rewrite Ha, Z.eqb_refl. by apply IH.
Qed.

Lemma startsWith_inv (q : cstring) :
  forall s : cstring, startsWith s q = true -> exists t : cstring, s = q ++ t.
Proof.
  unfold startsWith.
  induction q as [|c q IH]; intros s H; [by exists s|].
  destruct s as [|a s]; [discriminate|]. simpl in H.
  destruct (decide (a = c)) as [->|]; [|discriminate].
  destruct (IH s H) as [t ->]. by exists t.
Qed.

Lemma startsWith_app (q t : cstring) : startsWith (q ++ t) q = true.
Proof.
  unfold startsWith. induction q as [|c q IH]; [done|].
  simpl. by rewrite decide_True.
Qed.

(** A marker that ends in a colon is not touched by [trimRight]. *)
Lemma marker_survives (buf : buffer) (p t q : cstring) :
  holds buf (p ++ t) -> fold_case p = fold_case (q ++ [x3a]) ->
  holds (trimRight buf) (p ++ rstrip t).
Proof.
  intros Hb Hp. apply fold_case_colon_last in Hp as (p' & -> & _).
  apply trimRight_holds in Hb.
  rewrite <- app_assoc in Hb. simpl in Hb.
  rewrite rstrip_app_keep in Hb by apply is_trimmed_colon.
  by rewrite <- app_assoc.
Qed.

Lemma prose_branch_fixed (st : state) (line : buffer) (a : byte) (s : cstring) :
  holds line (a :: s) -> rstrip (a :: s) = a :: s ->
  prose_branch st line
  = bind_outcome (writeLatexEscaped line) (fun o =>
      Done {| st_list := st_list st;
              st_out := st_out st ++ o ++ forced_line_break;
              st_line := line;
              st_events := st_events st ++ [Prose] |}).
Proof.
  intros Hb Hfix. unfold prose_branch.
  rewrite (trimRight_fixed line (a :: s) Hb Hfix).
  destruct Hb as [Hs [rest ->]]. apply Forall_cons in Hs as [Ha _].
  simpl. by rewrite decide_False.
Qed.

Lemma strchr_split (s : cstring) (c : byte) :
  forall k : nat,
    strchr s c = Some k ->
    exists u v : cstring, s = u ++ c :: v /\ length u = k.
Proof.
  induction s as [|x s IH]; intros k H; [discriminate|]. simpl in H.
  destruct (decide (x = c)) as [->|].
  - injection H as <-. by exists [], s.
  - destruct (strchr s c) as [k'|]; [|discriminate]. injection H as <-.
    destruct (IH k' eq_refl) as (u & v & -> & <-). by exists (x :: u), v.
Qed.

Lemma strchr_skip (p s : cstring) (c : byte) :
  c ∉ p -> strchr (p ++ s) c = (fun k : nat => (length p + k)%nat) <$> strchr s c.
Proof.
  induction p as [|x p IH]; intros Hc; simpl.
  - by destruct (strchr s c).
  - apply not_elem_of_cons in Hc as [Hx Hp].
    rewrite decide_False by done. rewrite (IH Hp).
    by destruct (strchr s c).
Qed.

Lemma rstrip_marker (p t q : cstring) :
  fold_case p = fold_case (q ++ [x3a]) -> rstrip (p ++ t) = p ++ rstrip t.
Proof.
  intros Hp. apply fold_case_colon_last in Hp as (p' & -> & _).
  rewrite <- !app_assoc. simpl. apply rstrip_app_keep, is_trimmed_colon.
Qed.

Lemma rstrip_marker_fixed (p t q : cstring) :
  fold_case p = fold_case (q ++ [x3a]) ->
  rstrip (p ++ rstrip t) = p ++ rstrip t.
Proof. intros Hp. by rewrite (rstrip_marker p _ q Hp), rstrip_idemp. Qed.

(** The three ways through [process_line], by what the trimmed line
    starts with. *)
Lemma process_line_dropped (st : state) (s : cstring) :
  holds (trimRight (st_line st)) s ->
  startsWithIgnoreCase s (B "Type:") || startsWithIgnoreCase s (B "Received:") = true ->
  process_line st
  = Done {| st_list := st_list st; st_out := st_out st;
            st_line := trimRight (st_line st);
            st_events := st_events st ++ [Dropped] |}.
Proof.
  intros Hs H. unfold process_line. cbv zeta. by rewrite (cstr_holds _ _ Hs), H.
Qed.

Lemma process_line_plain (st : state) (s : cstring) :
  holds (trimRight (st_line st)) s ->
  startsWithIgnoreCase s (B "Type:") = false ->
  startsWithIgnoreCase s (B "Received:") = false ->
  startsWithIgnoreCase s (B "From:") = false ->
  process_line st
  = if startsWith s (B "Attachment:")
    then attachment_branch st (trimRight (st_line st))
    else prose_branch st (trimRight (st_line st)).
Proof.
  intros Hs H1 H2 H3. unfold process_line. cbv zeta.
  rewrite !(cstr_holds _ _ Hs), H1, H2, H3. cbn [orb].
  by rewrite ?(cstr_holds _ _ Hs).
Qed.

Lemma process_line_from (st : state) (s : cstring) :
  holds (trimRight (st_line st)) s ->
  startsWithIgnoreCase s (B "Type:") = false ->
  startsWithIgnoreCase s (B "Received:") = false ->
  startsWithIgnoreCase s (B "From:") = true ->
  process_line st
  = if startsWith (cstr (stripPhoneFromFromLine (trimRight (st_line st))))
                  (B "Attachment:")
    then attachment_branch st (stripPhoneFromFromLine (trimRight (st_line st)))
    else prose_branch st (stripPhoneFromFromLine (trimRight (st_line st))).
Proof.
  intros Hs H1 H2 H3. unfold process_line. cbv zeta.
  rewrite !(cstr_holds _ _ Hs), H1, H2, H3. cbn [orb].
  by rewrite ?(cstr_holds _ _ Hs).
Qed.

(** [stripPhoneFromFromLine] on a trimmed line whose first colon ends
    the prefix [p']: what is left still starts with the prefix and the
    colon, and is trimmed. *)
Lemma stripPhoneFromFromLine_holds (line : buffer) (p' t : cstring) :
  holds line (p' ++ x3a :: t) -> x3a ∉ p' ->  rstrip t = t ->
  exists w : cstring,
    holds (stripPhoneFromFromLine line) (p' ++ x3a :: w) /\ rstrip w = w.
Proof.
  intros Hl Hp Ht. unfold stripPhoneFromFromLine.
  rewrite (cstr_holds _ _ Hl).
  rewrite (strchr_skip p' _ x3a Hp). cbn [strchr].
  rewrite decide_True by done. cbn [fmap option_fmap option_map].
  rewrite Nat.add_0_r, drop_app_length. cbn [strchr].
  rewrite decide_False by done.
  destruct (strchr t x28) as [k|] eqn:Ek; cbn [fmap option_fmap option_map].
  - destruct (strchr_split _ _ _ Ek) as (u & v & -> & <-).
    destruct Hl as [Hs [rest ->]].
    exists (rstrip u). split; [|apply rstrip_idemp].
    replace (p' ++ x3a :: rstrip u) with (rstrip (p' ++ x3a :: u))
      by apply rstrip_app_keep, is_trimmed_colon.
    apply trimRight_holds. split.
    + rewrite app_comm_cons, app_assoc in Hs. by apply Forall_app in Hs as [? _].
    + exists (v ++ NUL :: rest).
      replace ((p' ++ x3a :: u ++ x28 :: v) ++ NUL :: rest)
        with ((p' ++ x3a :: u) ++ x28 :: (v ++ NUL :: rest))
        by (by rewrite <- !app_assoc; simpl; rewrite <- app_assoc).
      replace (length p' + S (length u))%nat
        with (length (p' ++ x3a :: u) + 0)%nat
        by (rewrite length_app; simpl; lia).
      by rewrite insert_app_r.
  - exists t. by split.
Qed.

(** The first letter of a line decides that it is none of the other
    markers. *)
Lemma startsWithIgnoreCase_first (a c : byte) (s q : cstring) :
  tolower (byte_val a) <> tolower (byte_val c) ->
  startsWithIgnoreCase (a :: s) (c :: q) = false.
Proof. intros H. simpl. by apply Z.eqb_neq in H as ->. Qed.

Lemma fold_case_head (a : byte) (p : cstring) (z : Z) (zs : list Z) :
  fold_case (a :: p) = z :: zs -> tolower (byte_val a) = z.
Proof. by intros [= -> _]. Qed.

Lemma startsWith_same_length (p t q : cstring) :
  length p = length q -> p <> q -> startsWith (p ++ t) q = false.
Proof.
  intros Hlen Hne. destruct (startsWith (p ++ t) q) eqn:E; [|done].
  apply startsWith_inv in E as [t' E].
  apply app_inj_1 in E as [-> _]; done.
Qed.

(** C9.  A line is the bytes [p ++ t] in the array, [p] being some
    casing of a marker.  (1) If [p] is a casing of [Attachment:] other
    than the exact one, the line is prose: the trimmed line is escaped
    and followed by the forced line break.  (2) If [p] is any casing of
    [Type:] or [Received:], the line is dropped: nothing is written.
    (3) If [p] is any casing of [From:], the line is redacted by
    [stripPhoneFromFromLine] and then written as prose. *)
Theorem classification_mixes_case_sensitivity (st : state) (p t : cstring) :
  holds (st_line st) (p ++ t) ->
  (fold_case p = fold_case (B "Attachment:") -> p <> B "Attachment:" ->
   process_line st
   = bind_outcome (writeLatexEscaped (trimRight (st_line st))) (fun o =>
       Done {| st_list := st_list st;
               st_out := st_out st ++ o ++ forced_line_break;
               st_line := trimRight (st_line st);
               st_events := st_events st ++ [Prose] |}))
  /\ (fold_case p = fold_case (B "Type:") \/ fold_case p = fold_case (B "Received:") ->
      process_line st
      = Done {| st_list := st_list st; st_out := st_out st;
                st_line := trimRight (st_line st);
                st_events := st_events st ++ [Dropped] |})
  /\ (fold_case p = fold_case (B "From:") ->
      process_line st
      = bind_outcome
          (writeLatexEscaped (stripPhoneFromFromLine (trimRight (st_line st))))
          (fun o =>
             Done {| st_list := st_list st;
                     st_out := st_out st ++ o ++ forced_line_break;
                     st_line := stripPhoneFromFromLine (trimRight (st_line st));
                     st_events := st_events st ++ [Prose] |})).
Proof.
  intros Hb. split_and!.
  - intros Hp Hne.
    pose proof (fold_case_length _ _ Hp) as Hlen.
    change (B "Attachment:") with (B "Attachment" ++ [x3a]) in Hp.
    pose proof (marker_survives _ _ _ _ Hb Hp) as Hl.
    pose proof (rstrip_marker_fixed p t _ Hp) as Hfix.
    destruct p as [|a p0]; [discriminate Hlen|].
    literal (fold_case (B "Attachment" ++ [x3a])).
    apply fold_case_head in Hp.
    rewrite (process_line_plain st _ Hl).
    + rewrite startsWith_same_length by done.
      by apply (prose_branch_fixed st _ a (p0 ++ rstrip t)).
    + literal (B "Type:"). apply startsWithIgnoreCase_first. by rewrite Hp.
    + literal (B "Received:"). apply startsWithIgnoreCase_first. by rewrite Hp.
    + literal (B "From:"). apply startsWithIgnoreCase_first. by rewrite Hp.
  - intros Hp.
    assert (Hl : holds (trimRight (st_line st)) (p ++ rstrip t)).
    { destruct Hp as [Hp|Hp].
      - change (B "Type:") with (B "Type" ++ [x3a]) in Hp.
        by apply (marker_survives _ _ _ _ Hb Hp).
      - change (B "Received:") with (B "Received" ++ [x3a]) in Hp.
        by apply (marker_survives _ _ _ _ Hb Hp). }
    apply (process_line_dropped st _ Hl).
    destruct Hp as [Hp|Hp].
    + by rewrite (startsWithIgnoreCase_fold _ _ _ Hp).
    + rewrite (startsWithIgnoreCase_fold _ _ _ Hp). apply orb_true_r.
  - intros Hp.
    change (B "From:") with (B "From" ++ [x3a]) in Hp.
    pose proof (marker_survives _ _ _ _ Hb Hp) as Hl.
    pose proof (startsWithIgnoreCase_fold _ _ (rstrip t) Hp) as Hfrom.
    destruct (fold_case_colon_last _ _ Hp) as (p' & -> & Hp').
    assert (Hcolon : x3a ∉ p').
    { intros Hin. apply (list_elem_of_fmap_2 (fun c : byte => tolower (byte_val c))) in Hin.
      fold (fold_case p') in Hin. rewrite Hp' in Hin.
      literal (fold_case (B "From")). literal (tolower (byte_val x3a)).
      repeat (apply elem_of_cons in Hin as [Hin|Hin]; [discriminate Hin|]).
      by apply elem_of_nil in Hin. }
    destruct p' as [|a p0]; [discriminate Hp'|].
    literal (fold_case (B "From")).
    apply fold_case_head in Hp'.
    rewrite <- app_assoc in Hl. cbn [app] in Hl.
    destruct (stripPhoneFromFromLine_holds _ (a :: p0) (rstrip t) Hl Hcolon)
      as (w & Hw & Hfix); [apply rstrip_idemp|].
    rewrite <- app_assoc in Hfrom. cbn [app] in Hfrom.
    rewrite (process_line_from st _ Hl).
    + rewrite (cstr_holds _ _ Hw).
      replace (startsWith ((a :: p0) ++ x3a :: w) (B "Attachment:")) with false.
      * apply (prose_branch_fixed st _ a (p0 ++ x3a :: w)); [exact Hw|].
        change (a :: p0 ++ x3a :: w) with ((a :: p0) ++ x3a :: w).
        rewrite rstrip_app_keep by apply is_trimmed_colon. by rewrite Hfix.
      * literal (B "Attachment:"). unfold startsWith. simpl.
        destruct (decide (a = x41)) as [->|]; [discriminate Hp'|done].
    + literal (B "Type:"). apply startsWithIgnoreCase_first. by rewrite Hp'.
    + literal (B "Received:"). apply startsWithIgnoreCase_first. by rewrite Hp'.
    + exact Hfrom.
Qed.

Lemma no_NUL_decide (s : cstring) :
  forallb (fun c : byte => negb (bool_decide (c = NUL))) s = true ->
  Forall (fun c : byte => c <> NUL) s.
Proof.
  intros H. apply Forall_forall. intros c Hc%list_elem_of_In.
  rewrite forallb_forall in H. specialize (H c Hc).
  apply negb_true_iff, bool_decide_eq_false in H. exact H.
Qed.

Lemma classification_mixes_case_sensitivity_witness :
  let st := mkState [] [] (B "attachment: x.png (image/png, 3 bytes)" ++ [NL; NUL]) [] in
  holds (st_line st) (B "attachment:" ++ B " x.png (image/png, 3 bytes)" ++ [NL])
  /\ process_line st
     = Done {| st_list := [];
               st_out := B "attachment: x.png (image/png, 3 bytes)\\" ++ [NL];
               st_line := B "attachment: x.png (image/png, 3 bytes)" ++ [NUL; NUL];
               st_events := [Prose] |}.
Proof.
  intros st.
  assert (Hh : holds (st_line st)
                 (B "attachment:" ++ B " x.png (image/png, 3 bytes)" ++ [NL])).
  { split; [by apply no_NUL_decide | by exists []]. }
  split; [exact Hh|].
  destruct (classification_mixes_case_sensitivity st _ _ Hh) as [Hprose _].
  rewrite Hprose; [reflexivity | reflexivity | discriminate].
Defined.

(** ** Unmatched attachment lines *)





(** ** The escaper *)

Lemma utf8CharLen_range (c : byte) : 1 <= utf8CharLen c <= 4.
Proof. unfold utf8CharLen. repeat destruct (_ =? _); lia. Qed.

Lemma high_bit_not_NUL (c : byte) : 0x80 <= byte_val c -> c <> NUL.
Proof. intros H ->. vm_compute in H. by apply H. Qed.

Lemma emit_emit (o o' : list byte) (t t' : list access)
    (m : outcome (list byte * list access)) :
  emit o t (emit o' t' m) = emit (o ++ o') (t ++ t') m.
Proof. destruct m as [[o'' t'']| |]; simpl; [|done..]. by rewrite !app_assoc. Qed.

Lemma emit_nil (m : outcome (list byte * list access)) : emit [] [] m = m.
Proof. by destruct m as [[o t]| |]. Qed.

Lemma fst_emit (o : list byte) (t : list access)
    (m : outcome (list byte * list access)) :
  map_outcome fst (emit o t m) = map_outcome (app o) (map_outcome fst m).
Proof. by destruct m as [[o' t']| |]. Qed.

(** One step of the loop on a byte below 0x80. *)
Lemma escape_loop_ascii (fuel : nat) (c : byte) (mem : buffer) (off : nat) :
  c <> NUL -> byte_val c < 0x80 ->
  escape_loop (S fuel) (c :: mem) off
  = emit (latex_ascii c) [Escaped off] (escape_loop fuel mem (S off)).
Proof.
  intros Hc Hlt. cbn [escape_loop]. rewrite decide_False by done.
  by replace (byte_val c <? 128) with true by lia.
Qed.

(** One step of the loop on a byte from 0x80 on whose announced bytes
    are in the array. *)
Lemma escape_loop_multi (fuel : nat) (c : byte) (u mem : buffer) (off : nat) :
  0x80 <= byte_val c -> length (c :: u) = Z.to_nat (utf8CharLen c) ->
  escape_loop (S fuel) ((c :: u) ++ mem) off
  = emit (emoji_open ++ (c :: u) ++ emoji_close)
         (Copied <$> seq off (length (c :: u)))
         (escape_loop fuel mem (off + length (c :: u))%nat).
Proof.
  intros Hhi Hlen. cbn [escape_loop app].
  rewrite decide_False by by apply high_bit_not_NUL.
  replace (byte_val c <? 128) with false by lia.
  rewrite <- Hlen.
  change (c :: u ++ mem) with ((c :: u) ++ mem).
  rewrite take_app_length, drop_app_length.
  replace (length ((c :: u) ++ mem) <? length (c :: u))%nat with false; [done|].
  symmetry. apply Nat.ltb_ge. rewrite length_app. lia.
Qed.

(** Fuel beyond the length of the array changes nothing. *)
Lemma escape_loop_fuel (f1 : nat) :
  forall (f2 : nat) (mem : buffer) (off : nat),
    (length mem < f1)%nat -> (length mem < f2)%nat ->
    escape_loop f1 mem off = escape_loop f2 mem off.
Proof.
  induction f1 as [|f1 IH]; intros f2 mem off H1 H2; [lia|].
  destruct f2 as [|f2]; [lia|].
  destruct mem as [|c mem]; [done|]. cbn [escape_loop].
  destruct (decide (c = NUL)); [done|].
  destruct (byte_val c <? 128).
  - f_equal. apply IH; simpl in *; lia.
  - destruct (_ <? _)%nat eqn:E; [done|]. f_equal.
    pose proof (utf8CharLen_range c).
    apply IH; rewrite length_drop; simpl in *; lia.
Qed.

(** The loop never runs out of the fuel [writeLatexEscaped] gives it. *)
Lemma escape_loop_total (fuel : nat) :
  forall (mem : buffer) (off : nat),
    (length mem < fuel)%nat -> escape_loop fuel mem off <> OutOfFuel.
Proof.
  induction fuel as [|fuel IH]; intros mem off Hlen; [lia|].
  destruct mem as [|c mem]; [done|]. cbn [escape_loop].
  destruct (decide (c = NUL)); [done|].
  assert (Hemit : forall (o : list byte) (t : list access)
                    (m : outcome (list byte * list access)),
             m <> OutOfFuel -> emit o t m <> OutOfFuel).
  { intros o t [[o' t']| |]; done. }
  destruct (byte_val c <? 128).
  - apply Hemit, IH. simpl in Hlen. lia.
  - destruct (_ <? _)%nat eqn:E; [done|].
    pose proof (utf8CharLen_range c).
    apply Hemit, IH. rewrite length_drop. simpl in *. lia.
Qed.

(** The bytes written do not depend on the offset the trace counts
    from. *)
Lemma escape_loop_offset (fuel : nat) :
  forall (mem : buffer) (off off' : nat),
    map_outcome fst (escape_loop fuel mem off)
    = map_outcome fst (escape_loop fuel mem off').
Proof.
  induction fuel as [|fuel IH]; intros mem off off'; [done|].
  destruct mem as [|c mem]; [done|]. cbn [escape_loop].
  destruct (decide (c = NUL)); [done|].
  destruct (byte_val c <? 128).
  - rewrite !fst_emit. f_equal. apply IH.
  - destruct (_ <? _)%nat; [done|]. rewrite !fst_emit. f_equal. apply IH.
Qed.

(** Scanned bytes are read as they stand, whatever follows them. *)
Lemma escape_loop_scanned (s : cstring) :
  scanned s ->
  exists o : list byte,
    forall off : nat,
      exists tr : list access,
        access_offset <$> tr = seq off (length s)
        /\ forall (fuel : nat) (mem : buffer),
             (length (s ++ mem) < fuel)%nat ->
             escape_loop fuel (s ++ mem) off
             = emit o tr (escape_loop fuel mem (off + length s)%nat).
Proof.
  induction 1 as [|c s Hc Hlt _ [o IH]|c u s Hhi Hlen _ [o IH]].
  - exists []. intros off. exists []. split; [done|].
    intros fuel mem _. by rewrite emit_nil, Nat.add_0_r.
  - exists (latex_ascii c ++ o). intros off.
    destruct (IH (S off)) as (tr & Htr & Hloop).
    exists (Escaped off :: tr). split; [by rewrite fmap_cons, Htr|].
    intros fuel mem Hfuel. destruct fuel as [|fuel]; [lia|].
    simpl in Hfuel. cbn [app].
    rewrite escape_loop_ascii by done.
    rewrite Hloop by lia. rewrite emit_emit.
    replace (S off + length s)%nat with (off + length (c :: s))%nat by (simpl; lia).
    f_equal. apply escape_loop_fuel; rewrite length_app in Hfuel; lia.
  - exists ((emoji_open ++ (c :: u) ++ emoji_close) ++ o). intros off.
    destruct (IH (off + length (c :: u))%nat) as (tr & Htr & Hloop).
    exists ((Copied <$> seq off (length (c :: u))) ++ tr). split.
    + rewrite fmap_app, Htr, <- list_fmap_compose, length_app.
      rewrite (list_fmap_ext _ id (seq off (length (c :: u)))) by done.
      by rewrite list_fmap_id, seq_app.
    + intros fuel mem Hfuel. destruct fuel as [|fuel]; [lia|].
      rewrite length_app in Hfuel.
      rewrite <- app_assoc.
      rewrite escape_loop_multi by done.
      rewrite Hloop by (rewrite length_app in *; simpl in *; lia).
      rewrite emit_emit.
      replace (off + length (c :: u) + length s)%nat
        with (off + length ((c :: u) ++ s))%nat by (rewrite length_app; lia).
      f_equal. rewrite !length_app in Hfuel.
      apply escape_loop_fuel; simpl in *; lia.
Qed.

Lemma complete_suffix (a b : cstring) : complete (a ++ b) -> complete b.
Proof.
  intros Hc i c Hi Hhi.
  specialize (Hc (length a + i)%nat c).
  rewrite lookup_app_r in Hc by lia.
  replace (length a + i - length a)%nat with i in Hc by lia.
  specialize (Hc Hi Hhi). rewrite length_app in Hc. lia.
Qed.

Lemma complete_scanned (n : nat) :
  forall s : cstring,
    (length s <= n)%nat -> Forall (fun c : byte => c <> NUL) s ->
    complete s -> scanned s.
Proof.
  induction n as [|n IH]; intros s Hn Hs Hc.
  - destruct s; [constructor | simpl in Hn; lia].
  - destruct s as [|c s]; [constructor|].
    apply Forall_cons in Hs as [Hc0 Hs]. simpl in Hn.
    destruct (Z.ltb_spec (byte_val c) 0x80) as [Hlt|Hhi].
    + apply scanned_ascii; [done | done |].
      apply IH; [lia | done | by apply (complete_suffix [c])].
    + pose proof (Hc 0%nat c eq_refl Hhi) as Hlen.
      pose proof (utf8CharLen_range c) as Hrange.
      destruct (Z.to_nat (utf8CharLen c)) as [|k] eqn:Ek; [lia|].
      simpl in Hlen.
      rewrite <- (take_drop (S k) (c :: s)). cbn [take drop].
      apply scanned_multi; [done | |].
      * simpl. rewrite Ek, length_take. lia.
      * apply IH.
        -- rewrite length_drop. lia.
        -- by apply Forall_drop.
        -- apply (complete_suffix (c :: take k s)). simpl. by rewrite take_drop.
Qed.

(** C10.  A string none of whose bytes from 0x80 on lacks the bytes it
    announces is escaped in full: the loop ends, the offsets it handles
    are 0, 1, ... up to the length of the string less one, each once and
    in this order, so that no byte it copies lies at or after the
    terminator, and what it writes is the same whatever the array holds
    after the terminator.  On any array at all the loop ends, with the
    bytes written or with a read outside the array. *)
Theorem escaping_is_total_and_in_bounds (s : cstring) :
  Forall (fun c : byte => c <> NUL) s -> complete s ->
  (exists (o : list byte) (tr : list access),
     (forall rest : list byte,
        writeLatexEscaped_traced (s ++ NUL :: rest) = Done (o, tr)
        /\ writeLatexEscaped (s ++ NUL :: rest) = Done o)
     /\ access_offset <$> tr = seq 0 (length s))
  /\ (forall buf : buffer, writeLatexEscaped_traced buf <> OutOfFuel).
Proof.
  intros Hs Hc. split.
  - pose proof (complete_scanned (length s) s (le_n _) Hs Hc) as Hsc.
    destruct (escape_loop_scanned s Hsc) as [o Ho].
    destruct (Ho 0%nat) as (tr & Htr & Hloop).
    exists o, tr. split; [|done].
    intros rest.
    assert (Ht : writeLatexEscaped_traced (s ++ NUL :: rest) = Done (o, tr)).
    { unfold writeLatexEscaped_traced. rewrite Hloop by lia.
      cbn [escape_loop]. rewrite decide_True by done. simpl.
      by rewrite !app_nil_r. }
    split; [done|]. unfold writeLatexEscaped. by rewrite Ht.
  - intros buf. apply escape_loop_total. lia.
Qed.

Lemma escaping_is_total_and_in_bounds_witness :
  let s := B "a_b " ++ [xc3; xa9] in
  Forall (fun c : byte => c <> NUL) s /\ complete s
  /\ writeLatexEscaped_traced (s ++ [NUL; xf0])
     = Done (B "a\_b \emoji{" ++ [xc3; xa9] ++ B "}",
             [Escaped 0; Escaped 1; Escaped 2; Escaped 3; Copied 4; Copied 5])
  /\ exists (o : list byte) (tr : list access),
       (forall rest : list byte,
          writeLatexEscaped_traced (s ++ NUL :: rest) = Done (o, tr)
          /\ writeLatexEscaped (s ++ NUL :: rest) = Done o)
       /\ access_offset <$> tr = seq 0 (length s).
Proof.
  intros s.
  assert (Hs : Forall (fun c : byte => c <> NUL) s) by (by apply no_NUL_decide).
  assert (Hc : complete s).
  { intros i c Hi Hhi.
    do 6 (destruct i as [|i]; [injection Hi as <-; vm_compute; lia|]).
    discriminate Hi. }
  split_and!; [exact Hs | exact Hc | reflexivity |].
  exact (proj1 (escaping_is_total_and_in_bounds s Hs Hc)).
Defined.

(** ** Multi-byte sequences in the escaped output *)

Lemma writeLatexEscaped_app (pre : cstring) :
  scanned pre ->
  exists o : list byte,
    forall mem : buffer,
      writeLatexEscaped (pre ++ mem) = map_outcome (app o) (writeLatexEscaped mem).
Proof.
  intros Hpre. destruct (escape_loop_scanned pre Hpre) as [o Ho].
  exists o. intros mem. destruct (Ho 0%nat) as (tr & _ & Hloop).
  unfold writeLatexEscaped, writeLatexEscaped_traced.
  rewrite Hloop by lia. rewrite fst_emit. f_equal.
  rewrite (escape_loop_offset _ mem _ 0). f_equal.
  apply escape_loop_fuel; rewrite ?length_app; lia.
Qed.

Lemma lead_byte_high (c : byte) : 2 <= utf8CharLen c -> 0x80 <= byte_val c.
Proof.
  assert (H : implb (2 <=? utf8CharLen c) (0x80 <=? byte_val c) = true)
    by (destruct c; reflexivity).
  intros Hlen. apply Z.leb_le in Hlen. rewrite Hlen in H. by apply Z.leb_le.
Qed.

Lemma writeLatexEscaped_sequence (sq : cstring) (mem : buffer) :
  utf8_sequence sq ->
  writeLatexEscaped (sq ++ mem)
  = map_outcome (app (emoji_open ++ sq ++ emoji_close)) (writeLatexEscaped mem).
Proof.
  intros (c & u & -> & Hlead & Hlen & _).
  unfold writeLatexEscaped, writeLatexEscaped_traced.
  rewrite escape_loop_multi by (by try apply lead_byte_high).
  rewrite fst_emit. f_equal.
  rewrite (escape_loop_offset _ mem _ 0). f_equal.
  apply escape_loop_fuel; rewrite ?length_app; simpl; lia.
Qed.

Lemma map_outcome_compose {A C D : Type} (f : A -> C) (g : C -> D) (m : outcome A) :
  map_outcome g (map_outcome f m) = map_outcome (fun a => g (f a)) m.
Proof. by destruct m. Qed.

(** C4 as the code has it.  When the bytes before the sequence are bytes
    that the escaper reads as whole steps, a multi-byte UTF-8 sequence
    comes out as its own bytes, unchanged and together, between the
    opening and the closing of the emoji command: the output is that of
    the bytes before, then the wrapped sequence, then the output for
    whatever follows. *)
Theorem utf8_sequence_is_wrapped (pre sq : cstring) :
  scanned pre -> utf8_sequence sq ->
  exists o1 : list byte,
    writeLatexEscaped (pre ++ [NUL]) = Done o1
    /\ forall mem : buffer,
         writeLatexEscaped (pre ++ sq ++ mem)
         = map_outcome (fun o2 : list byte =>
                          o1 ++ emoji_open ++ sq ++ emoji_close ++ o2)
                       (writeLatexEscaped mem).
Proof.
  intros Hpre Hsq. destruct (writeLatexEscaped_app pre Hpre) as [o Ho].
  exists o. split.
  - rewrite Ho. simpl. by rewrite app_nil_r.
  - intros mem. rewrite Ho, (writeLatexEscaped_sequence sq mem Hsq).
    rewrite map_outcome_compose. destruct (writeLatexEscaped mem); simpl; [|done..].
    by rewrite <- !app_assoc.
Qed.

Lemma utf8_sequence_is_wrapped_witness :
  let pre := B "caf" in
  let sq := [xc3; xa9] in
  scanned pre /\ utf8_sequence sq
  /\ writeLatexEscaped (pre ++ sq ++ B "!" ++ [NUL])
     = Done (B "caf\emoji{" ++ sq ++ B "}!")
  /\ exists o1 : list byte,
       writeLatexEscaped (pre ++ [NUL]) = Done o1
       /\ forall mem : buffer,
            writeLatexEscaped (pre ++ sq ++ mem)
            = map_outcome (fun o2 : list byte =>
                             o1 ++ emoji_open ++ sq ++ emoji_close ++ o2)
                          (writeLatexEscaped mem).
Proof.
  intros pre sq.
  assert (Hpre : scanned pre).
  { repeat (apply scanned_ascii; [discriminate | reflexivity |]). apply scanned_nil. }
  assert (Hsq : utf8_sequence sq).
  { exists xc3, [xa9]. split_and!; [reflexivity | discriminate | reflexivity | reflexivity]. }
  split_and!; [exact Hpre | exact Hsq | reflexivity |].
  exact (utf8_sequence_is_wrapped pre sq Hpre Hsq).
Defined.

Lemma occurs_occursb (sq l : list byte) : occurs sq l -> occursb sq l = true.
Proof.
  intros (a & b & ->). unfold occursb. apply existsb_exists.
  exists (length a). split.
  - apply in_seq. rewrite !length_app. lia.
  - apply bool_decide_eq_true. by rewrite drop_app_length, take_app_length.
Qed.

(** C4 as stated fails.  In the line C3 C3 A9 the sequence C3 A9 is a
    valid two-byte sequence at offset 1; the escaper takes the first C3
    as a lead byte and copies two bytes, then wraps A9 alone, and the
    two bytes of the sequence are not together anywhere in the output.
    The line passes the condition of C10 all the same. *)
Lemma utf8_sequence_can_be_split :
  let sq := [xc3; xa9] in
  let line := [xc3] ++ sq in
  utf8_sequence sq /\ complete line
  /\ exists o : list byte,
       writeLatexEscaped (line ++ [NUL]) = Done o
       /\ o = emoji_open ++ [xc3; xc3] ++ emoji_close
              ++ emoji_open ++ [xa9] ++ emoji_close
       /\ ~ occurs sq o.
Proof.
  intros sq line. split_and!.
  - exists xc3, [xa9]. split_and!; [reflexivity | discriminate | reflexivity | reflexivity].
  - intros i c Hi Hhi.
    do 3 (destruct i as [|i]; [injection Hi as <-; vm_compute; lia|]).
    discriminate Hi.
  - eexists. split_and!; [reflexivity | reflexivity |].
    intros Hocc%occurs_occursb. vm_compute in Hocc. discriminate Hocc.
Qed.

(** ** The scenarios of the specification *)

Lemma main_loop_step (fuel : nat) (input chunk rest : list byte) (st : state) :
  fgets LineSize input = Some (chunk, rest) ->
  main_loop (S fuel) input st
  = bind_outcome (process_line (read_line st chunk)) (main_loop fuel rest).
Proof. intros H. cbn [main_loop]. by rewrite H. Qed.

(** C3.  With the one file IMG_0001.jpg of 439593 bytes in the catalog,
    not yet used, the line without a file name that declares image/jpeg
    and 439593 bytes writes the image inclusion of
    attachments/IMG_0001.jpg, byte for byte the paragraph start, the
    includegraphics command around the detokenized path and the
    paragraph end, and marks the entry used; the loop goes on with the
    next line. *)
Theorem size_match_includes_image (fuel : nat) (rest : list byte)
    (path : cstring) (out0 : list byte) (line0 : buffer) (ev0 : list event) :
  main_loop (S fuel)
    (B "Attachment: no filename (image/jpeg, 439593 bytes)" ++ NL :: rest)
    {| st_list := [mkAttachmentFile (B "IMG_0001.jpg") path 439593 false];
       st_out := out0; st_line := line0; st_events := ev0 |}
  = main_loop fuel rest
      {| st_list := [mkAttachmentFile (B "IMG_0001.jpg") path 439593 true];
         st_out := out0 ++ [NL] ++ B "\par\noindent" ++ [NL]
           ++ B "\includegraphics[width=\linewidth,height=0.9\textheight,keepaspectratio]{\detokenize{attachments/IMG_0001.jpg}}"
           ++ [NL] ++ B "\par\medskip" ++ [NL; NL];
         st_line := B "Attachment: no filename (image/jpeg, 439593 bytes)"
                    ++ [NUL; NUL] ++ drop 52 line0;
         st_events := ev0 ++ [ImageInclude 0] |}.
Proof.
  rewrite (main_loop_step fuel _
             (B "Attachment: no filename (image/jpeg, 439593 bytes)" ++ [NL]) rest)
    by (vm_compute; reflexivity).
  replace (process_line _) with
    (Done {| st_list := [mkAttachmentFile (B "IMG_0001.jpg") path 439593 true];
             st_out := out0 ++ [NL] ++ B "\par\noindent" ++ [NL]
               ++ B "\includegraphics[width=\linewidth,height=0.9\textheight,keepaspectratio]{\detokenize{attachments/IMG_0001.jpg}}"
               ++ [NL] ++ B "\par\medskip" ++ [NL; NL];
             st_line := B "Attachment: no filename (image/jpeg, 439593 bytes)"
                        ++ [NUL; NUL] ++ drop 52 line0;
             st_events := ev0 ++ [ImageInclude 0] |})
    by (vm_compute; reflexivity).
  reflexivity.
Qed.

(** C5 as the code has it.  The line of the scenario is cut at its
    parenthesis and trimmed, and what is left, the label [From:]
    included, is written as prose with the forced line break. *)
Theorem from_line_is_redacted (fuel : nat) (rest : list byte)
    (l : AttachmentList) (out0 : list byte) (line0 : buffer) (ev0 : list event) :
  main_loop (S fuel) (B "From: Jane Doe (+15551234567)" ++ NL :: rest)
    {| st_list := l; st_out := out0; st_line := line0; st_events := ev0 |}
  = main_loop fuel rest
      {| st_list := l;
         st_out := out0 ++ B "From: Jane Doe" ++ forced_line_break;
         st_line := B "From: Jane Doe" ++ [NUL; NUL] ++ B "+15551234567)"
                    ++ [NUL; NUL] ++ drop 31 line0;
         st_events := ev0 ++ [Prose] |}.
Proof.
  rewrite (main_loop_step fuel _ (B "From: Jane Doe (+15551234567)" ++ [NL]) rest)
    by (vm_compute; reflexivity).
  replace (process_line _) with
    (Done {| st_list := l;
             st_out := out0 ++ B "From: Jane Doe" ++ forced_line_break;
             st_line := B "From: Jane Doe" ++ [NUL; NUL] ++ B "+15551234567)"
                        ++ [NUL; NUL] ++ drop 31 line0;
             st_events := ev0 ++ [Prose] |})
    by (vm_compute; reflexivity).
  reflexivity.
Qed.

(** C5 as stated fails: the output for the line is not [Jane Doe] and
    the forced line break, with or without the newline after it. *)
Lemma from_line_keeps_its_label :
  let st0 := mkState [] [] [] [] in
  let input := B "From: Jane Doe (+15551234567)" ++ [NL] in
  st_out <$> run input st0 = Done (B "From: Jane Doe\\" ++ [NL])
  /\ st_out <$> run input st0 <> Done (B "Jane Doe\\" ++ [NL])
  /\ st_out <$> run input st0 <> Done (B "Jane Doe\\").
Proof. vm_compute. split_and!; [reflexivity | discriminate | discriminate]. Qed.

(** ** The loop ends *)

Lemma fgets_take_length (n : nat) :
  forall s : list byte, (length (fgets_take n s).2 <= length s)%nat.
Proof.
  induction n as [|n IH]; intros s; [by destruct s|].
  destruct s as [|c s]; [done|]. cbn [fgets_take].
  destruct (decide (c = NL)); [simpl; lia|].
  specialize (IH s). destruct (fgets_take n s) as [a r]. simpl in *. lia.
Qed.

Lemma fgets_shorter (input chunk rest : list byte) :
  fgets LineSize input = Some (chunk, rest) -> (length rest < length input)%nat.
Proof.
  unfold fgets. destruct input as [|c s]; [done|]. intros H0.
  assert (H : fgets_take (LineSize - 1) (c :: s) = (chunk, rest)) by congruence.
  clear H0. revert H.
  destruct (LineSize - 1)%nat as [|n] eqn:E; [vm_compute in E; discriminate E|].
  intros H.
  cbn [fgets_take] in H. destruct (decide (c = NL)).
  - injection H as _ <-. simpl. lia.
  - pose proof (fgets_take_length n s) as Hlen.
    destruct (fgets_take n s) as [a r]. simpl in H, Hlen.
    injection H as _ <-. simpl. lia.
Qed.

Lemma writeLatexEscaped_total (s : buffer) : writeLatexEscaped s <> OutOfFuel.
Proof.
  unfold writeLatexEscaped, writeLatexEscaped_traced.
  pose proof (escape_loop_total (S (length s)) s 0%nat (Nat.lt_succ_diag_r _)) as H.
  by destruct (escape_loop (S (length s)) s 0) as [[o t]| |].
Qed.

Lemma process_line_total (st : state) : process_line st <> OutOfFuel.
Proof.
  assert (Hesc : forall (line : buffer) (k : list byte -> outcome state),
             (forall o : list byte, k o <> OutOfFuel) ->
             bind_outcome (writeLatexEscaped line) k <> OutOfFuel).
  { intros line k Hk. pose proof (writeLatexEscaped_total line) as H.
    destruct (writeLatexEscaped line); [apply Hk | done | done]. }
  unfold process_line. destruct (_ || _); [done|].
  destruct (startsWith _ _).
  - unfold attachment_branch. destruct (0 <=? _).
    + by destruct (_ !! _).
    + by apply Hesc.
  - unfold prose_branch. destruct (trimRight _) as [|c t]; [done|].
    destruct (decide (c = NUL)); [done|]. by apply Hesc.
Qed.

(** With the fuel that [run] gives it the loop ends: it returns a state
    or stops at a read outside the line array. *)
Lemma main_loop_total (fuel : nat) :
  forall (input : list byte) (st : state),
    (length input < fuel)%nat -> main_loop fuel input st <> OutOfFuel.
Proof.
  induction fuel as [|fuel IH]; intros input st Hlen; [lia|].
  cbn [main_loop]. destruct (fgets LineSize input) as [[chunk rest]|] eqn:E; [|done].
  apply fgets_shorter in E.
  pose proof (process_line_total (read_line st chunk)) as Hp.
  destruct (process_line (read_line st chunk)) as [st1| |]; [|done..].
  apply IH. lia.
Qed.

(** ** The output path *)

Lemma strrchr_absent (s : cstring) (c : byte) : c ∉ s -> strrchr s c = None.
Proof.
  induction s as [|x s IH]; intros Hc; [done|].
  apply not_elem_of_cons in Hc as [Hx Hs]. simpl.
  rewrite (IH Hs). by rewrite decide_False.
Qed.

Lemma strrchr_last (base ext : cstring) (c : byte) :
  c ∉ ext -> strrchr (base ++ c :: ext) c = Some (length base).
Proof.
  intros Hc. induction base as [|x base IH]; simpl.
  - rewrite (strrchr_absent _ _ Hc). by rewrite decide_True.
  - by rewrite IH.
Qed.

Lemma deriveOutputPath_last_dot (base ext : cstring) :
  x2e ∉ ext -> base <> [] -> (length (base ++ B ".tex") < MaxPathLen)%nat ->
  deriveOutputPath (base ++ x2e :: ext) = Some (base ++ B ".tex").
Proof.
  intros Hext Hbase Hfit. unfold deriveOutputPath.
  rewrite (strrchr_last _ _ _ Hext).
  rewrite length_app in Hfit. change (length (B ".tex")) with 4%nat in Hfit.
  destruct (length base) as [|k] eqn:Hk; [by destruct base|].
  replace (MaxPathLen <=? S k)%nat with false
    by (symmetry; apply Nat.leb_gt; lia).
  replace (MaxPathLen <? S k + 5)%nat with false
    by (symmetry; apply Nat.ltb_ge; lia).
  by rewrite <- Hk, take_app_length.
Qed.




(** * Further properties of the code *)

(** ** utf8CharLen and the escaper on plain text *)

(** X1.  The bit masks of [utf8CharLen] in terms of the value of the
    byte: 2 from 0xC0 to 0xDF, 3 from 0xE0 to 0xEF, 4 from 0xF0 to 0xF7,
    and 1 for everything else, which is the bytes below 0x80, the
    continuation bytes 0x80 to 0xBF and the bytes from 0xF8 on. *)
Theorem utf8CharLen_by_range (c : byte) :
  utf8CharLen c =
    if byte_val c <? 0xC0 then 1
    else if byte_val c <=? 0xDF then 2
    else if byte_val c <=? 0xEF then 3
    else if byte_val c <=? 0xF7 then 4
    else 1.
Proof. destruct c; reflexivity. Qed.

Lemma escape_loop_plain (s : cstring) :
  Forall ascii_char s ->
  forall (fuel off : nat) (rest : list byte),
    (length s < fuel)%nat ->
    escape_loop fuel (s ++ NUL :: rest) off
    = Done (mjoin (latex_ascii <$> s), Escaped <$> seq off (length s)).
Proof.
  induction 1 as [|c s [Hc Hlt] _ IH]; intros fuel off rest Hfuel.
  - destruct fuel as [|fuel]; [lia|]. cbn [app escape_loop].
    by rewrite decide_True.
  - destruct fuel as [|fuel]; [simpl in Hfuel; lia|]. cbn [app].
    rewrite escape_loop_ascii by done.
    rewrite IH by (simpl in Hfuel; lia). reflexivity.
Qed.

Lemma writeLatexEscaped_plain (s : cstring) (rest : list byte) :
  Forall ascii_char s ->
  writeLatexEscaped (s ++ NUL :: rest) = Done (mjoin (latex_ascii <$> s)).
Proof.
  intros Hs. unfold writeLatexEscaped, writeLatexEscaped_traced.
  rewrite (escape_loop_plain s Hs); [done|]. rewrite length_app. simpl. lia.
Qed.

(** X2.  On a string of bytes below 0x80 the escaper works byte by byte:
    what it writes is the replacements of the bytes, one after the
    other, whatever the array holds after the terminator; it never
    stops at a read outside the array. *)
Theorem plain_text_is_escaped_bytewise (s : cstring) (rest : list byte) :
  Forall ascii_char s ->
  writeLatexEscaped (s ++ NUL :: rest) = Done (mjoin (latex_ascii <$> s)).
Proof. apply writeLatexEscaped_plain. Qed.

Lemma plain_text_is_escaped_bytewise_witness :
  Forall ascii_char (B "50% of A_B")
  /\ writeLatexEscaped (B "50% of A_B" ++ NUL :: B "old")
     = Done (B "50\% of A\_B").
Proof.
  assert (Hs : Forall ascii_char (B "50% of A_B")).
  { repeat (apply Forall_cons; split; [split; [discriminate | reflexivity]|]).
    apply Forall_nil_2. }
  split; [exact Hs|].
  rewrite (plain_text_is_escaped_bytewise _ (B "old") Hs). reflexivity.
Defined.

Lemma latex_ascii_unreserved (c : byte) : reserved c = false -> latex_ascii c = [c].
Proof. destruct c; first [reflexivity | discriminate]. Qed.

(** X3.  Escaping leaves alone a string that needs no escaping: bytes
    below 0x80 none of which is one of the ten reserved characters come
    out as they are. *)
Theorem safe_text_is_unchanged (s : cstring) (rest : list byte) :
  Forall ascii_char s -> Forall (fun c : byte => reserved c = false) s ->
  writeLatexEscaped (s ++ NUL :: rest) = Done s.
Proof.
  intros Hs Hr. rewrite (writeLatexEscaped_plain s rest Hs). f_equal.
  clear Hs. induction Hr as [|c s Hc _ IH]; [done|].
  rewrite fmap_cons.
  change (mjoin (latex_ascii c :: (latex_ascii <$> s)))
    with (latex_ascii c ++ mjoin (latex_ascii <$> s)).
  by rewrite IH, (latex_ascii_unreserved c Hc).
Qed.

Lemma safe_text_is_unchanged_witness :
  Forall ascii_char (B "Hello, world!")
  /\ Forall (fun c : byte => reserved c = false) (B "Hello, world!")
  /\ writeLatexEscaped (B "Hello, world!" ++ [NUL]) = Done (B "Hello, world!").
Proof.
  assert (Hs : Forall ascii_char (B "Hello, world!")).
  { repeat (apply Forall_cons; split; [split; [discriminate | reflexivity]|]).
    apply Forall_nil_2. }
  assert (Hr : Forall (fun c : byte => reserved c = false) (B "Hello, world!")).
  { repeat (apply Forall_cons; split; [reflexivity|]). apply Forall_nil_2. }
  split_and!; [exact Hs | exact Hr |].
  exact (safe_text_is_unchanged _ [] Hs Hr).
Defined.

(** X4.  What the escaper writes for a well-formed string does not depend
    on what follows it: for a string without NUL in which every byte
    from 0x80 on has the bytes it announces, the output for the string
    followed by anything is the output for the string alone followed by
    the output for the rest. *)
Theorem escaping_distributes_over_append (a : cstring) :
  Forall (fun c : byte => c <> NUL) a -> complete a ->
  exists oa : list byte,
    writeLatexEscaped (a ++ [NUL]) = Done oa
    /\ forall mem : buffer,
         writeLatexEscaped (a ++ mem) = map_outcome (app oa) (writeLatexEscaped mem).
Proof.
  intros Ha Hc.
  pose proof (complete_scanned (length a) a (le_n _) Ha Hc) as Hsc.
  destruct (writeLatexEscaped_app a Hsc) as [o Ho].
  exists o. split; [|exact Ho].
  rewrite Ho. simpl. by rewrite app_nil_r.
Qed.

Lemma escaping_distributes_over_append_witness :
  let a := B "a&" ++ [xe2; x82; xac] in
  Forall (fun c : byte => c <> NUL) a /\ complete a
  /\ writeLatexEscaped (a ++ B "b" ++ [NUL])
     = Done (B "a\&\emoji{" ++ [xe2; x82; xac] ++ B "}b")
  /\ exists oa : list byte,
       writeLatexEscaped (a ++ [NUL]) = Done oa
       /\ forall mem : buffer,
            writeLatexEscaped (a ++ mem) = map_outcome (app oa) (writeLatexEscaped mem).
Proof.
  intros a.
  assert (Ha : Forall (fun c : byte => c <> NUL) a) by (by apply no_NUL_decide).
  assert (Hc : complete a).
  { intros i c Hi Hhi.
    do 5 (destruct i as [|i]; [injection Hi as <-; vm_compute; lia|]).
    discriminate Hi. }
  split_and!; [exact Ha | exact Hc | reflexivity |].
  exact (escaping_distributes_over_append a Ha Hc).
Defined.

(** X5.  A line that ends inside a multi-byte sequence is read past its
    end.  When the last lead byte [c] announces [n] bytes and only the
    bytes [u], fewer than [n - 1], follow it before the terminator, the
    escaper copies [c], [u], the terminator and the next stale bytes of
    the array into the emoji command, and goes on escaping the array
    from there; when the array ends before the [n] bytes do, the read
    leaves the array. *)
Theorem truncated_sequence_is_read_past_the_terminator
    (pre u rest : list byte) (c : byte) (m : nat) :
  scanned pre -> 0x80 <= byte_val c ->
  Z.to_nat (utf8CharLen c) = (length u + 2 + m)%nat ->
  exists o1 : list byte,
    writeLatexEscaped (pre ++ [NUL]) = Done o1
    /\ ((m <= length rest)%nat ->
        writeLatexEscaped (pre ++ c :: u ++ NUL :: rest)
        = map_outcome
            (fun o2 : list byte =>
               o1 ++ emoji_open ++ (c :: u ++ NUL :: take m rest)
                  ++ emoji_close ++ o2)
            (writeLatexEscaped (drop m rest)))
    /\ ((length rest < m)%nat ->
        writeLatexEscaped (pre ++ c :: u ++ NUL :: rest) = Fault).
Proof.
  intros Hpre Hhi Hlen.
  destruct (writeLatexEscaped_app pre Hpre) as [o Ho].
  exists o. split_and!.
  - rewrite Ho. simpl. by rewrite app_nil_r.
  - intros Hm. rewrite Ho.
    replace (c :: u ++ NUL :: rest)
      with ((c :: u ++ NUL :: take m rest) ++ drop m rest)
      by (simpl; by rewrite <- app_assoc, <- app_comm_cons, take_drop).
    unfold writeLatexEscaped at 1. unfold writeLatexEscaped_traced.
    rewrite escape_loop_multi; [|done|].
    + rewrite fst_emit, map_outcome_compose.
      rewrite (escape_loop_offset _ (drop m rest) _ 0).
      rewrite (escape_loop_fuel _ (S (length (drop m rest))) _ 0%nat);
        [|rewrite length_app; simpl; lia | lia].
      fold (writeLatexEscaped_traced (drop m rest)).
      fold (writeLatexEscaped (drop m rest)).
      destruct (writeLatexEscaped (drop m rest)); simpl; [|done..].
      by rewrite <- !app_assoc.
    + rewrite Hlen. simpl. rewrite length_app. simpl.
      rewrite length_take. lia.
  - intros Hm. rewrite Ho.
    unfold writeLatexEscaped at 1. unfold writeLatexEscaped_traced.
    cbn [escape_loop]. rewrite decide_False by by apply high_bit_not_NUL.
    replace (byte_val c <? 128) with false by lia.
    replace (length (c :: u ++ NUL :: rest) <? Z.to_nat (utf8CharLen c))%nat
      with true; [done|].
    symmetry. apply Nat.ltb_lt. rewrite Hlen. simpl. rewrite length_app. simpl. lia.
Qed.

Lemma truncated_sequence_is_read_past_the_terminator_witness :
  scanned (B "ab") /\ 0x80 <= byte_val xf0
  /\ Z.to_nat (utf8CharLen xf0) = (length [x9f] + 2 + 1)%nat
  /\ writeLatexEscaped (B "ab" ++ xf0 :: [x9f] ++ NUL :: B "old" ++ [NUL])
     = Done (B "ab\emoji{" ++ [xf0; x9f; NUL] ++ B "o}ld")
  /\ writeLatexEscaped (B "ab" ++ xf0 :: [x9f] ++ NUL :: []) = Fault.
Proof.
  assert (Hpre : scanned (B "ab")).
  { repeat (apply scanned_ascii; [discriminate | reflexivity |]). apply scanned_nil. }
  assert (Hhi : 0x80 <= byte_val xf0) by (vm_compute; discriminate).
  assert (Hlen : Z.to_nat (utf8CharLen xf0) = (length [x9f] + 2 + 1)%nat)
    by reflexivity.
  split_and!; [exact Hpre | exact Hhi | exact Hlen | |].
  - destruct (truncated_sequence_is_read_past_the_terminator
                (B "ab") [x9f] (B "old" ++ [NUL]) xf0 1 Hpre Hhi Hlen)
      as (o1 & Ho1 & Hcopy & _).
    rewrite Hcopy by (simpl; lia).
    injection Ho1 as <-. reflexivity.
  - destruct (truncated_sequence_is_read_past_the_terminator
                (B "ab") [x9f] [] xf0 1 Hpre Hhi Hlen)
      as (o1 & _ & _ & Hfault).
    apply Hfault. simpl. lia.
Defined.

(** ** trimRight and stripPhoneFromFromLine *)

Lemma is_trimmed_white_space (c : byte) :
  is_trimmed c = bool_decide (c ∈ white_space).
Proof. destruct c; reflexivity. Qed.

Lemma trimRight_loop_length (n : nat) :
  forall s : buffer, length (trimRight_loop s n) = length s.
Proof.
  induction n as [|n IH]; intros s; [done|]. simpl.
  destruct (s !! n) as [c|]; [|done].
  destruct (is_trimmed c); [|done]. by rewrite IH, length_insert.
Qed.

Lemma rstrip_cut (s : cstring) :
  exists cut : cstring,
    s = rstrip s ++ cut /\ Forall (fun c : byte => is_trimmed c = true) cut.
Proof.
  induction s as [|c s (cut & Hs & Hcut)] using rev_ind; [by exists []|].
  rewrite rstrip_snoc. destruct (is_trimmed c) eqn:Hc.
  - exists (cut ++ [c]). split.
    + rewrite app_assoc. by rewrite <- Hs.
    + apply Forall_app. split; [done|]. by apply Forall_singleton.
  - exists []. split; [by rewrite app_nil_r | done].
Qed.

Lemma rstrip_last (s : cstring) (c : byte) :
  last (rstrip s) = Some c -> is_trimmed c = false.
Proof.
  induction s as [|x s IH] using rev_ind; [done|].
  rewrite rstrip_snoc. destruct (is_trimmed x) eqn:Hx; [done|].
  rewrite last_snoc. by intros [= <-].
Qed.

(** X6.  [trimRight] cuts the white space at the end of the string and
    nothing else: the string is what is kept followed by what is cut,
    everything cut is white space, what is kept does not end in white
    space, the array keeps its length, and trimming again changes
    nothing. *)
Theorem trimRight_cuts_trailing_white_space (buf : buffer) (s : cstring) :
  holds buf s ->
  exists kept cut : cstring,
    s = kept ++ cut
    /\ Forall (fun c : byte => c ∈ white_space) cut
    /\ (forall c : byte, last kept = Some c -> c ∉ white_space)
    /\ holds (trimRight buf) kept
    /\ length (trimRight buf) = length buf
    /\ trimRight (trimRight buf) = trimRight buf.
Proof.
  intros Hb. destruct (rstrip_cut s) as (cut & Hs & Hcut).
  exists (rstrip s), cut. split_and!.
  - exact Hs.
  - eapply Forall_impl; [exact Hcut|]. intros c Hc. simpl in Hc.
    rewrite is_trimmed_white_space in Hc. by apply bool_decide_eq_true in Hc.
  - intros c Hc%rstrip_last. rewrite is_trimmed_white_space in Hc.
    by apply bool_decide_eq_false in Hc.
  - by apply trimRight_holds.
  - apply trimRight_loop_length.
  - by apply (trimRight_idemp buf s).
Qed.

Lemma trimRight_cuts_trailing_white_space_witness :
  holds (B "a b " ++ [x0d; x0a; NUL; x41]) (B "a b " ++ [x0d; x0a])
  /\ trimRight (B "a b " ++ [x0d; x0a; NUL; x41]) = B "a b" ++ [NUL; NUL; NUL; NUL; x41]
  /\ exists kept cut : cstring,
       B "a b " ++ [x0d; x0a] = kept ++ cut
       /\ Forall (fun c : byte => c ∈ white_space) cut
       /\ (forall c : byte, last kept = Some c -> c ∉ white_space)
       /\ holds (trimRight (B "a b " ++ [x0d; x0a; NUL; x41])) kept
       /\ length (trimRight (B "a b " ++ [x0d; x0a; NUL; x41]))
          = length (B "a b " ++ [x0d; x0a; NUL; x41])
       /\ trimRight (trimRight (B "a b " ++ [x0d; x0a; NUL; x41]))
          = trimRight (B "a b " ++ [x0d; x0a; NUL; x41]).
Proof.
  assert (Hh : holds (B "a b " ++ [x0d; x0a; NUL; x41]) (B "a b " ++ [x0d; x0a])).
  { split; [by apply no_NUL_decide | by exists [x41]]. }
  split_and!; [exact Hh | reflexivity |].
  exact (trimRight_cuts_trailing_white_space _ _ Hh).
Defined.

Lemma strchr_absent (s : cstring) (c : byte) : c ∉ s -> strchr s c = None.
Proof.
  intros Hc. rewrite <- (app_nil_r s), (strchr_skip s [] c Hc). done.
Qed.

Lemma strchr_first (a b : cstring) (c : byte) :
  c ∉ a -> strchr (a ++ c :: b) c = Some (length a).
Proof.
  intros Hc. rewrite (strchr_skip a _ c Hc). cbn [strchr].
  rewrite decide_True by done. simpl. f_equal. lia.
Qed.

Lemma insert_NUL_middle (a b : list byte) (x : byte) :
  <[length a := NUL]> (a ++ x :: b) = a ++ NUL :: b.
Proof.
  rewrite <- (Nat.add_0_r (length a)) at 1. by rewrite insert_app_r.
Qed.

(** What [stripPhoneFromFromLine] leaves is a prefix of the line. *)
Lemma stripPhoneFromFromLine_prefix (line : buffer) (s : cstring) :
  holds line s ->
  exists s' : cstring,
    holds (stripPhoneFromFromLine line) s' /\ s' `prefix_of` s
    /\ length (stripPhoneFromFromLine line) = length line.
Proof.
  intros Hl. unfold stripPhoneFromFromLine. rewrite (cstr_holds _ _ Hl).
  destruct (strchr s x3a) as [colon|] eqn:Ec; [|by exists s].
  destruct (strchr (drop colon s) x28) as [paren|] eqn:Ep; [|by exists s].
  destruct (strchr_split _ _ _ Ec) as (a & b & -> & <-).
  rewrite drop_app_length in Ep.
  destruct (strchr_split _ _ _ Ep) as (u & v & Huv & <-).
  destruct u as [|x u]; [discriminate Huv|]. injection Huv as <- ->.
  destruct Hl as [Hs [rest ->]].
  assert (Hcut : <[(length a + length (x3a :: u))%nat := NUL]>
                   ((a ++ x3a :: u ++ x28 :: v) ++ NUL :: rest)
                 = (a ++ x3a :: u) ++ NUL :: (v ++ NUL :: rest)).
  { replace ((a ++ x3a :: u ++ x28 :: v) ++ NUL :: rest)
      with ((a ++ x3a :: u) ++ x28 :: (v ++ NUL :: rest))
      by (by rewrite <- !app_assoc; simpl; rewrite <- app_assoc).
    replace (length a + length (x3a :: u))%nat with (length (a ++ x3a :: u))
      by (by rewrite length_app).
    apply insert_NUL_middle. }
  rewrite Hcut.
  assert (Hh : holds ((a ++ x3a :: u) ++ NUL :: (v ++ NUL :: rest)) (a ++ x3a :: u)).
  { split; [|by eexists].
    rewrite app_comm_cons, app_assoc in Hs. by apply Forall_app in Hs as [? _]. }
  exists (rstrip (a ++ x3a :: u)). split_and!.
  - by apply trimRight_holds.
  - etrans; [apply rstrip_prefix|].
    exists (x28 :: v). by rewrite <- app_assoc.
  - unfold trimRight. rewrite trimRight_loop_length, !length_app. simpl.
    rewrite !length_app. simpl. lia.
Qed.

(** X7.  [stripPhoneFromFromLine] cuts the line at the first opening
    parenthesis that comes after the first colon and trims what is left;
    a parenthesis before the colon is no place to cut.  A line without
    a colon, or without a parenthesis after its first colon, is left as
    it is. *)
Theorem stripPhoneFromFromLine_cuts_after_colon (line : buffer) (a b : cstring) :
  x3a ∉ a -> x28 ∉ b ->
  (holds line a -> stripPhoneFromFromLine line = line)
  /\ (holds line (a ++ x3a :: b) -> stripPhoneFromFromLine line = line)
  /\ (forall d : cstring,
        holds line (a ++ x3a :: b ++ x28 :: d) ->
        holds (stripPhoneFromFromLine line) (rstrip (a ++ x3a :: b))
        /\ length (stripPhoneFromFromLine line) = length line).
Proof.
  intros Ha Hb. split_and!.
  - intros Hl. unfold stripPhoneFromFromLine.
    by rewrite (cstr_holds _ _ Hl), (strchr_absent _ _ Ha).
  - intros Hl. unfold stripPhoneFromFromLine.
    rewrite (cstr_holds _ _ Hl), (strchr_first _ _ _ Ha), drop_app_length.
    cbn [strchr]. rewrite decide_False by done.
    by rewrite (strchr_absent _ _ Hb).
  - intros d Hl. unfold stripPhoneFromFromLine.
    rewrite (cstr_holds _ _ Hl), (strchr_first _ _ _ Ha), drop_app_length.
    assert (Hp : strchr (x3a :: b ++ x28 :: d) x28 = Some (length (x3a :: b))).
    { apply (strchr_first (x3a :: b) d x28).
      apply not_elem_of_cons. by split. }
    rewrite Hp. destruct Hl as [Hs [rest ->]].
    replace ((a ++ x3a :: b ++ x28 :: d) ++ NUL :: rest)
      with ((a ++ x3a :: b) ++ x28 :: (d ++ NUL :: rest))
      by (by rewrite <- !app_assoc; simpl; rewrite <- app_assoc).
    replace (length a + length (x3a :: b))%nat with (length (a ++ x3a :: b))
      by (by rewrite length_app).
    rewrite insert_NUL_middle. split.
    + apply trimRight_holds. split; [|by eexists].
      rewrite app_comm_cons, app_assoc in Hs. by apply Forall_app in Hs as [? _].
    + unfold trimRight. rewrite trimRight_loop_length, !length_app. done.
Qed.

Lemma stripPhoneFromFromLine_cuts_after_colon_witness :
  let line := B "(x) From: Jane Doe (+1555) (y)" ++ [NUL] in
  (x3a ∉ B "(x) From") /\ (x28 ∉ B " Jane Doe ")
  /\ holds line (B "(x) From" ++ x3a :: B " Jane Doe " ++ x28 :: B "+1555) (y)")
  /\ stripPhoneFromFromLine line
     = B "(x) From: Jane Doe" ++ [NUL; NUL] ++ B "+1555) (y)" ++ [NUL]
  /\ holds (stripPhoneFromFromLine line) (rstrip (B "(x) From" ++ x3a :: B " Jane Doe ")).
Proof.
  intros line.
  assert (Ha : x3a ∉ B "(x) From") by (apply (bool_decide_unpack _); exact I).
  assert (Hb : x28 ∉ B " Jane Doe ") by (apply (bool_decide_unpack _); exact I).
  assert (Hl : holds line (B "(x) From" ++ x3a :: B " Jane Doe " ++ x28 :: B "+1555) (y)")).
  { split; [by apply no_NUL_decide | by exists []]. }
  split_and!; [exact Ha | exact Hb | exact Hl | reflexivity |].
  destruct (stripPhoneFromFromLine_cuts_after_colon line _ _ Ha Hb) as (_ & _ & Hcut).
  exact (proj1 (Hcut _ Hl)).
Defined.

(** ** hasImageExtension and loadAttachmentsDir *)

Lemma in_image_extensions (ext : cstring) :
  strcmp_eq ext (B "png") || strcmp_eq ext (B "jpg")
  || strcmp_eq ext (B "jpeg") || strcmp_eq ext (B "gif")
  || strcmp_eq ext (B "bmp") || strcmp_eq ext (B "tif")
  || strcmp_eq ext (B "tiff")
  = bool_decide (ext ∈ image_extensions).
Proof.
  unfold strcmp_eq, image_extensions.
  apply eq_true_iff_eq. rewrite !orb_true_iff, !bool_decide_eq_true.
  rewrite !elem_of_cons, elem_of_nil. tauto.
Qed.

Lemma image_extensions_short (ext : cstring) :
  ext ∈ image_extensions -> (length ext < 16)%nat.
Proof.
  unfold image_extensions. rewrite !elem_of_cons, elem_of_nil.
  intros H. repeat (destruct H as [->|H]; [vm_compute; lia|]). done.
Qed.

(** X8.  [hasImageExtension] looks at what follows the last dot of the
    name, folded to lower case: a name with something before the dot is
    an image name exactly when that extension is one of png, jpg, jpeg,
    gif, bmp, tif and tiff in any casing.  A name without a dot is not
    an image name, and neither is a name whose only dot is its first
    byte, such as [.png]. *)
Theorem hasImageExtension_by_extension (base ext : cstring) :
  x2e ∉ ext ->
  hasImageExtension ext = false
  /\ hasImageExtension (x2e :: ext) = false
  /\ (base <> [] ->
      hasImageExtension (base ++ x2e :: ext)
      = bool_decide (map lower_char ext ∈ image_extensions)).
Proof.
  intros Hext. unfold hasImageExtension. split_and!.
  - by rewrite (strrchr_absent _ _ Hext).
  - pose proof (strrchr_last [] ext x2e Hext) as Hdot.
    cbn [app length] in Hdot. by rewrite Hdot.
  - intros Hbase. rewrite (strrchr_last _ _ _ Hext).
    destruct (length base) as [|k] eqn:Hk; [by destruct base|].
    replace (drop (S (S k)) (base ++ x2e :: ext)) with ext.
    + destruct (16 <=? length ext)%nat eqn:E.
      * symmetry. apply bool_decide_eq_false. intros Hin%image_extensions_short.
        rewrite length_map in Hin. apply Nat.leb_le in E. lia.
      * apply in_image_extensions.
    + rewrite <- Hk.
      replace (S (length base)) with (length (base ++ [x2e]))
        by (rewrite length_app; simpl; lia).
      by rewrite (cons_middle x2e base ext), app_assoc, drop_app_length.
Qed.

Lemma hasImageExtension_by_extension_witness :
  (x2e ∉ B "JPeG") /\ B "holiday.2024" <> []
  /\ hasImageExtension (B "holiday.2024.JPeG") = true
  /\ hasImageExtension (B "JPeG") = false
  /\ hasImageExtension (B ".JPeG") = false.
Proof.
  assert (Hext : x2e ∉ B "JPeG") by (apply (bool_decide_unpack _); exact I).
  destruct (hasImageExtension_by_extension (B "holiday.2024") (B "JPeG") Hext)
    as (Hnone & Hdot & Himg).
  split_and!; [exact Hext | discriminate | | exact Hnone | exact Hdot].
  change (B "holiday.2024.JPeG") with (B "holiday.2024" ++ x2e :: B "JPeG").
  rewrite Himg by discriminate. reflexivity.
Defined.

Lemma snprintf_s_short (cap : nat) (s : cstring) :
  (length s < cap)%nat -> snprintf_s cap s = s.
Proof. intros H. unfold snprintf_s. rewrite take_ge; [done | lia]. Qed.

Lemma loadEntry_spec (dirPath : cstring) (l : list AttachmentFile) (ent : dirent) :
  loadEntry dirPath l ent
  = if is_loaded ent
    then l ++ [ {| fileName := snprintf_s MaxPathLen (d_name ent);
                   fullPath := snprintf_s MaxPathLen
                                 (snprintf_s MaxPathLen (dirPath ++ B "/" ++ d_name ent));
                   fileSize := stat_size ent;
                   used := false |} ]
    else l.
Proof.
  unfold loadEntry, is_loaded, stat_size, strcmp_eq, attachmentListPush.
  destruct (_ || _); [done|]. simpl.
  destruct (d_stat ent) as [[[] size]|]; done.
Qed.

Lemma loadAttachmentsDir_added (dirPath : cstring) (entries : list dirent) :
  forall l : list AttachmentFile,
    exists added : list AttachmentFile,
      loadAttachmentsDir dirPath entries l = l ++ added
      /\ Forall (fun f : AttachmentFile => used f = false) added
      /\ fileName <$> added
         = (fun ent => snprintf_s MaxPathLen (d_name ent)) <$> filter is_loaded entries
      /\ fileSize <$> added = stat_size <$> filter is_loaded entries.
Proof.
  unfold loadAttachmentsDir.
  induction entries as [|ent entries IH]; intros l.
  - exists []. by rewrite app_nil_r.
  - cbn [fold_left]. rewrite loadEntry_spec.
    destruct (is_loaded ent) eqn:E.
    + destruct (IH (l ++ [ {| fileName := snprintf_s MaxPathLen (d_name ent);
                   fullPath := snprintf_s MaxPathLen
                                 (snprintf_s MaxPathLen (dirPath ++ B "/" ++ d_name ent));
                   fileSize := stat_size ent;
                   used := false |} ])) as (added & -> & Hu & Hn & Hs).
      eexists (_ :: added). split_and!.
      * by rewrite <- app_assoc.
      * by apply Forall_cons.
      * rewrite filter_cons_True by by rewrite E. rewrite !fmap_cons. by rewrite Hn.
      * rewrite filter_cons_True by by rewrite E. rewrite !fmap_cons. by rewrite Hs.
    + destruct (IH l) as (added & -> & Hu & Hn & Hs).
      exists added.
      rewrite filter_cons_False by (rewrite E; simpl; tauto). done.
Qed.

(** X9.  [loadAttachmentsDir] only appends to the list: it adds one
    entry, not yet used, for every directory entry other than [.] and
    [..] whose [stat] succeeds and says regular file, in the order of
    the listing, with the name cut to what the name array holds and the
    size [stat] gave; every other directory entry is skipped. *)
Theorem loadAttachmentsDir_appends_regular_files
    (dirPath : cstring) (entries : list dirent) (l : AttachmentList) :
  exists added : AttachmentList,
    loadAttachmentsDir dirPath entries l = l ++ added
    /\ Forall (fun f : AttachmentFile => used f = false) added
    /\ fileName <$> added
       = (fun ent => snprintf_s MaxPathLen (d_name ent)) <$> filter is_loaded entries
    /\ fileSize <$> added = stat_size <$> filter is_loaded entries.
Proof. apply loadAttachmentsDir_added. Qed.

(** ** The size lookup *)

Lemma first_unused_first (hit : AttachmentFile -> bool) (l : list AttachmentFile)
    (k : nat) (f : AttachmentFile) :
  fits_int l -> l !! k = Some f -> used f = false -> hit f = true ->
  exists (i : nat) (a : AttachmentFile),
    first_unused hit 0 l = Some i /\ to_int (Z.of_nat i) = Z.of_nat i
    /\ l !! i = Some a /\ used a = false /\ hit a = true
    /\ forall (j : nat) (g : AttachmentFile),
         (j < i)%nat -> l !! j = Some g -> used g = false -> hit g = false.
Proof.
  intros Hfit Hk Hu Hh.
  destruct (first_unused_found hit l k f 0 Hk Hu Hh) as [i E].
  destruct (first_unused_Some _ _ _ _ E) as (i' & a & -> & Hi & Hua & Hha & Hmin).
  simpl in E. exists i', a. split_and!; try done. by eapply index_to_int.
Qed.

Lemma first_unused_nothing (hit : AttachmentFile -> bool) (l : list AttachmentFile) :
  (forall (k : nat) (f : AttachmentFile),
     l !! k = Some f -> used f = false -> hit f = false) ->
  first_unused hit 0 l = None.
Proof.
  intros Hno. destruct (first_unused hit 0 l) as [i|] eqn:E; [|done].
  destruct (first_unused_Some _ _ _ _ E) as (k & a & _ & Hk & Hu & Hh & _).
  rewrite (Hno k a Hk Hu) in Hh. discriminate.
Qed.

(** X10.  How [findAttachmentBySize] breaks ties.  When an image is
    preferred and some unused entry of the size has an image name, the
    lookup returns the first such entry, also when unused entries of the
    size without an image name come before it.  When no image is
    preferred, or no unused entry of the size has an image name, it
    returns the first unused entry of the size. *)
Theorem size_lookup_prefers_image_names (l : AttachmentList) (size : Z)
    (k : nat) (f : AttachmentFile) :
  fits_int l -> l !! k = Some f -> used f = false -> fileSize f = size ->
  (hasImageExtension (fileName f) = true ->
   exists (i : nat) (a : AttachmentFile),
     findAttachmentBySize l size true = Z.of_nat i
     /\ l !! i = Some a /\ used a = false /\ fileSize a = size
     /\ hasImageExtension (fileName a) = true
     /\ forall (j : nat) (g : AttachmentFile),
          (j < i)%nat -> l !! j = Some g -> used g = false -> fileSize g = size ->
          hasImageExtension (fileName g) = false)
  /\ (forall preferImage : bool,
        (preferImage = false
         \/ forall (j : nat) (g : AttachmentFile),
              l !! j = Some g -> used g = false -> fileSize g = size ->
              hasImageExtension (fileName g) = false) ->
        exists (i : nat) (a : AttachmentFile),
          findAttachmentBySize l size preferImage = Z.of_nat i
          /\ l !! i = Some a /\ used a = false /\ fileSize a = size
          /\ forall (j : nat) (g : AttachmentFile),
               (j < i)%nat -> l !! j = Some g -> used g = false ->
               fileSize g <> size).
Proof.
  intros Hfit Hk Hu Hsize. split.
  - intros Himg.
    destruct (first_unused_first (image_size_hit size) l k f Hfit Hk Hu)
      as (i & a & E & Hint & Hi & Hua & Hha & Hmin).
    { unfold image_size_hit. rewrite Himg. apply andb_true_iff. split; [lia|done]. }
    unfold image_size_hit in Hha. apply andb_true_iff in Hha as [Hs Hext].
    exists i, a. unfold findAttachmentBySize. rewrite E, Hint.
    split_and!; try done; [lia|].
    intros j g Hj Hg Hug Hgs. specialize (Hmin j g Hj Hg Hug).
    unfold image_size_hit in Hmin. apply andb_false_iff in Hmin as [Hmin|Hmin]; [lia|done].
  - intros preferImage Hpref.
    destruct (first_unused_first (size_hit size) l k f Hfit Hk Hu)
      as (i & a & E & Hint & Hi & Hua & Hha & Hmin).
    { unfold size_hit. lia. }
    unfold size_hit in Hha.
    exists i, a. unfold findAttachmentBySize.
    replace (if preferImage then first_unused (image_size_hit size) 0 l else None)
      with (@None nat).
    + rewrite E, Hint. split_and!; try done; [lia|].
      intros j g Hj Hg Hug. specialize (Hmin j g Hj Hg Hug).
      unfold size_hit in Hmin. lia.
    + destruct preferImage; [|done]. destruct Hpref as [Hpref|Hpref]; [done|].
      symmetry. apply first_unused_nothing. intros j g Hg Hug.
      unfold image_size_hit. destruct (fileSize g =? size) eqn:Egs; [|done].
      rewrite (Hpref j g Hg Hug) by lia. done.
Qed.

Lemma size_lookup_prefers_image_names_witness :
  let l := [mkAttachmentFile (B "scan.pdf") (B "./attachments/scan.pdf") 500 false;
            mkAttachmentFile (B "IMG_2.PNG") (B "./attachments/IMG_2.PNG") 500 false] in
  fits_int l
  /\ findAttachmentBySize l 500 true = 1
  /\ findAttachmentBySize l 500 false = 0
  /\ exists (i : nat) (a : AttachmentFile),
       findAttachmentBySize l 500 true = Z.of_nat i
       /\ l !! i = Some a /\ used a = false /\ fileSize a = 500
       /\ hasImageExtension (fileName a) = true
       /\ forall (j : nat) (g : AttachmentFile),
            (j < i)%nat -> l !! j = Some g -> used g = false -> fileSize g = 500 ->
            hasImageExtension (fileName g) = false.
Proof.
  intros l.
  assert (Hfit : fits_int l) by (unfold fits_int, INT_MAX; simpl; lia).
  split_and!; [exact Hfit | reflexivity | reflexivity |].
  destruct (size_lookup_prefers_image_names l 500 1
              (mkAttachmentFile (B "IMG_2.PNG") (B "./attachments/IMG_2.PNG") 500 false)
              Hfit eq_refl eq_refl eq_refl) as [Himg _].
  apply Himg. reflexivity.
Defined.

(** X11.  A name that matches nothing does not end the matching: when no
    unused entry bears the name of the reference and the reference
    declares a size that some unused entry has, the reference resolves
    to an unused entry of that size.  Without a declared size it
    resolves to nothing. *)
Theorem name_miss_falls_back_to_size (l : AttachmentList) (r : parsed) :
  fits_int l ->
  (forall (j : nat) (g : AttachmentFile),
     l !! j = Some g -> used g = false -> fileName g <> attName r) ->
  (forall (k : nat) (f : AttachmentFile),
     0 <= attBytes r -> l !! k = Some f -> used f = false ->
     fileSize f = attBytes r ->
     exists (i : nat) (a : AttachmentFile),
       resolve l r = Z.of_nat i /\ l !! i = Some a /\ used a = false
       /\ fileSize a = attBytes r)
  /\ (attBytes r < 0 -> resolve l r = -1).
Proof.
  intros Hfit Hname.
  assert (Hidx : (if hasName r then findAttachmentByExactName l (attName r) else -1) = -1).
  { destruct (hasName r); [|done]. by apply findAttachmentByExactName_none. }
  unfold resolve. rewrite Hidx. split.
  - intros k f Hpos Hk Hu Hs.
    replace ((-1 <? 0) && (0 <=? attBytes r)) with true
      by (symmetry; apply andb_true_iff; split; lia).
    destruct (first_unused_first (size_hit (attBytes r)) l k f Hfit Hk Hu)
      as (i0 & a0 & E & _); [unfold size_hit; lia|].
    assert (Hnn : 0 <= findAttachmentBySize l (attBytes r) (isImageMime (attMime r))).
    { destruct (Z.lt_ge_cases (findAttachmentBySize l (attBytes r) (isImageMime (attMime r))) 0)
        as [Eneg|Epos]; [|lia].
      exfalso. unfold findAttachmentBySize in Eneg.
      destruct (if isImageMime (attMime r)
                then first_unused (image_size_hit (attBytes r)) 0 l else None)
        as [i1|] eqn:E1.
      - destruct (isImageMime (attMime r)); [|discriminate].
        destruct (first_unused_Some _ _ _ _ E1) as (k1 & a1 & -> & Hk1 & _).
        simpl in Eneg. rewrite (index_to_int l k1 a1 Hfit Hk1) in Eneg. lia.
      - rewrite E in Eneg.
        destruct (first_unused_Some _ _ _ _ E) as (k1 & a1 & -> & Hk1 & _).
        simpl in Eneg. rewrite (index_to_int l k1 a1 Hfit Hk1) in Eneg. lia. }
    destruct (findAttachmentBySize_nonneg l _ _ Hfit Hnn) as (i & a & ? & ? & ? & ?).
    by exists i, a.
  - intros Hneg.
    by replace ((-1 <? 0) && (0 <=? attBytes r)) with false
      by (symmetry; apply andb_false_iff; right; lia).
Qed.

Lemma name_miss_falls_back_to_size_witness :
  let l := [mkAttachmentFile (B "signal-2024.jpg") (B "./attachments/signal-2024.jpg") 311164 false] in
  let r := mkParsed (B "myImage.png") (B "image/png") 311164 true in
  fits_int l /\ resolve l r = 0
  /\ resolve l (mkParsed (B "myImage.png") [] (-1) true) = -1.
Proof.
  intros l r.
  assert (Hfit : fits_int l) by (unfold fits_int, INT_MAX; simpl; lia).
  assert (Hname : forall (j : nat) (g : AttachmentFile),
             l !! j = Some g -> used g = false -> fileName g <> B "myImage.png").
  { intros [|[|j]] g Hg _; [injection Hg as <-; discriminate | discriminate Hg..]. }
  split_and!; [exact Hfit | |].
  - destruct (name_miss_falls_back_to_size l r Hfit Hname) as [Hsize _].
    destruct (Hsize 0%nat _ ltac:(simpl; lia) eq_refl eq_refl eq_refl)
      as (i & a & Hr & Hi & _).
    destruct i as [|[|i]]; [exact Hr | discriminate Hi..].
  - destruct (name_miss_falls_back_to_size l (mkParsed (B "myImage.png") [] (-1) true)
                Hfit Hname) as [_ Hnone].
    apply Hnone. simpl. lia.
Defined.

(** ** parseAttachmentLine *)

Lemma isspace_white_space (c : byte) :
  isspace (byte_val c) = bool_decide (c ∈ white_space).
Proof. destruct c; reflexivity. Qed.

Lemma skip_space_keep (s : cstring) :
  (forall c : byte, head s = Some c -> c ∉ white_space) -> skip_space s = s.
Proof.
  destruct s as [|c s]; [done|]. intros H. simpl.
  rewrite isspace_white_space, bool_decide_eq_false_2; [done|]. by apply H.
Qed.

Lemma skip_space_space (s : cstring) : skip_space (x20 :: s) = skip_space s.
Proof. reflexivity. Qed.

Lemma rstrip_keep (s : cstring) :
  (forall c : byte, last s = Some c -> c ∉ white_space) -> rstrip s = s.
Proof.
  destruct s as [|c s _] using rev_ind; [done|]. intros H.
  rewrite rstrip_snoc, is_trimmed_white_space, bool_decide_eq_false_2; [done|].
  apply H. by rewrite last_snoc.
Qed.

Lemma trimmed_rstrip (s : cstring) :
  Forall (fun c : byte => c <> NUL) s -> trimmed s = rstrip s.
Proof.
  intros Hs. unfold trimmed. apply cstr_holds, trimRight_holds.
  split; [done | by exists []].
Qed.

Lemma digits_value_stop (ds t : cstring) (c : byte) :
  Forall (fun d : byte => is_digit d = true) ds -> is_digit c = false ->
  forall acc : Z, digits_value acc (ds ++ c :: t) = digits_value acc ds.
Proof.
  intros Hds Hc. induction Hds as [|d ds Hd _ IH]; intros acc; simpl.
  - by rewrite Hc.
  - rewrite Hd. apply IH.
Qed.

Lemma digits_exclude (ds : cstring) (x : byte) :
  Forall (fun d : byte => is_digit d = true) ds -> is_digit x = false -> x ∉ ds.
Proof.
  intros Hds Hx Hin. rewrite Forall_forall in Hds.
  rewrite (Hds x Hin) in Hx. discriminate.
Qed.

Lemma sscanf_lld_digits (ds t : cstring) :
  ds <> [] -> Forall (fun d : byte => is_digit d = true) ds ->
  sscanf_lld (ds ++ x20 :: t) = Some (clamp_ll (digits_value 0 ds)).
Proof.
  intros Hne Hds. destruct ds as [|d ds]; [done|].
  pose proof (digits_value_stop (d :: ds) t x20 Hds eq_refl 0) as Hval.
  apply Forall_cons in Hds as [Hd Hds].
  unfold sscanf_lld. cbn [app skip_space].
  assert (Hsp : isspace (byte_val d) = false).
  { revert Hd. destruct d; first [discriminate | reflexivity]. }
  rewrite Hsp.
  assert (Hminus : d <> x2d) by (intros ->; vm_compute in Hd; discriminate Hd).
  assert (Hplus : d <> x2b) by (intros ->; vm_compute in Hd; discriminate Hd).
  rewrite !decide_False by done.
  unfold scan_unsigned. rewrite Hd. cbn [fmap option_fmap option_map].
  f_equal. f_equal. exact Hval.
Qed.

Lemma digit_not_white_space (d : byte) : is_digit d = true -> d ∉ white_space.
Proof.
  assert (H : implb (is_digit d) (negb (bool_decide (d ∈ white_space))) = true)
    by (destruct d; reflexivity).
  intros Hd. rewrite Hd in H. simpl in H.
  by apply negb_true_iff, bool_decide_eq_false in H.
Qed.

Lemma drop_S_middle (a b : list byte) (x : byte) :
  drop (S (length a)) (a ++ x :: b) = b.
Proof.
  replace (S (length a)) with (length (a ++ [x])) by (rewrite length_app; simpl; lia).
  by rewrite (cons_middle x a b), app_assoc, drop_app_length.
Qed.

Lemma clamp_len_small (cap n : nat) : (n < cap)%nat -> clamp_len cap n = n.
Proof.
  intros H. unfold clamp_len.
  by replace (cap <=? n)%nat with false by (symmetry; apply Nat.leb_gt; lia).
Qed.

Lemma parseAttachmentLine_formatted (name mime digits : cstring) :
  Forall (fun c : byte => c <> NUL) name ->
  Forall (fun c : byte => c <> NUL) mime ->
  name <> [] -> x28 ∉ name ->
  (forall c : byte, head name = Some c -> c ∉ white_space) ->
  (forall c : byte, last name = Some c -> c ∉ white_space) ->
  (length name + 1 < MaxPathLen)%nat ->
  x2c ∉ mime -> x29 ∉ mime ->
  (forall c : byte, last mime = Some c -> c ∉ white_space) ->
  (length mime < 128)%nat ->
  digits <> [] -> Forall (fun d : byte => is_digit d = true) digits ->
  (length (mime ++ B ", " ++ digits ++ B " bytes") < MaxPathLen)%nat ->
  parseAttachmentLine
    (B "Attachment: " ++ name ++ B " (" ++ mime ++ B ", " ++ digits ++ B " bytes)")
    MaxPathLen 128
  = {| attName := if bool_decide (name = B "no filename") then [] else name;
       attMime := mime;
       attBytes := clamp_ll (digits_value 0 digits);
       hasName := negb (bool_decide (name = B "no filename")) |}.
Proof.
  intros Hname0 Hmime0 Hne Hparen Hhead Hlast Hnlen Hcomma Hclose Hmlast Hmlen
         Hdne Hdigits Hilen.
  set (inner := mime ++ B ", " ++ digits ++ B " bytes") in *.
  set (p := name ++ B " (" ++ inner ++ B ")").
  assert (Hline : B "Attachment: " ++ name ++ B " (" ++ mime ++ B ", " ++ digits
                    ++ B " bytes)" = B "Attachment:" ++ x20 :: p).
  { unfold p, inner. rewrite <- !app_assoc. reflexivity. }
  rewrite Hline. unfold parseAttachmentLine.
  rewrite startsWith_app. cbn [negb]. rewrite drop_app_length, skip_space_space.
  assert (Hskip : skip_space p = p).
  { apply skip_space_keep. unfold p. destruct name; [done|]. exact Hhead. }
  rewrite Hskip.
  assert (Hp : strchr p x28 = Some (length (name ++ [x20]))).
  { unfold p. change (B " (") with ([x20] ++ [x28]).
    rewrite <- app_assoc, app_assoc. cbn [app].
    apply (strchr_first (name ++ [x20])).
    rewrite not_elem_of_app. split; [done|]. by apply (bool_decide_unpack _). }
  rewrite Hp.
  assert (Hp1 : take (length (name ++ [x20])) p = name ++ [x20]).
  { unfold p. change (B " (") with ([x20] ++ [x28]).
    rewrite <- app_assoc, app_assoc. by rewrite take_app_length. }
  assert (Hp2 : drop (S (length (name ++ [x20]))) p = inner ++ B ")").
  { unfold p. change (B " (") with ([x20] ++ [x28]).
    rewrite <- app_assoc, app_assoc. cbn [app]. apply drop_S_middle. }
  rewrite clamp_len_small by (rewrite length_app; simpl; lia).
  rewrite Hp1, Hp2.
  assert (Hn1 : trimmed (name ++ [x20]) = name).
  { rewrite trimmed_rstrip.
    - rewrite rstrip_snoc. cbn [is_trimmed]. by apply rstrip_keep.
    - apply Forall_app. split; [done|]. by apply Forall_singleton. }
  rewrite Hn1.
  assert (Hinner0 : Forall (fun c : byte => c <> NUL) inner).
  { unfold inner. rewrite !Forall_app. split_and!; [done | by apply no_NUL_decide | |
      by apply no_NUL_decide].
    eapply Forall_impl; [exact Hdigits|]. intros d Hd ->. discriminate Hd. }
  assert (Hi1 : strchr (inner ++ B ")") x29 = Some (length inner)).
  { apply (strchr_first inner [] x29). unfold inner.
    rewrite !not_elem_of_app. split_and!; [done | by apply (bool_decide_unpack _) | |
      by apply (bool_decide_unpack _)].
    by apply digits_exclude. }
  rewrite Hi1, clamp_len_small by done.
  rewrite take_app_length.
  assert (Hi2 : trimmed inner = inner).
  { rewrite trimmed_rstrip by done. apply rstrip_keep. intros c.
    unfold inner. change (B " bytes") with (B " byte" ++ [x73]).
    rewrite !app_assoc, last_snoc. intros [= <-]. by apply (bool_decide_unpack _). }
  rewrite Hi2.
  assert (Hi3 : strchr inner x2c = Some (length mime)).
  { unfold inner. by apply (strchr_first mime). }
  rewrite Hi3.
  assert (Hi4 : take (length mime) inner = mime) by apply take_app_length.
  assert (Hi5 : drop (S (length mime)) inner = x20 :: digits ++ B " bytes")
    by apply (drop_S_middle mime).
  rewrite Hi4, Hi5, skip_space_space.
  assert (Hd1 : skip_space (digits ++ B " bytes") = digits ++ B " bytes").
  { apply skip_space_keep. destruct digits as [|d ds]; [done|].
    intros c [= <-]. apply Forall_cons in Hdigits as [Hd _].
    by apply digit_not_white_space. }
  rewrite Hd1.
  change (digits ++ B " bytes") with (digits ++ x20 :: B "bytes").
  rewrite (sscanf_lld_digits digits (B "bytes")) by done.
  rewrite trimmed_rstrip, (rstrip_keep mime) by done.
  rewrite !snprintf_s_short by (unfold MaxPathLen in *; lia).
  unfold strcmp_eq. cbn [default].
  replace (bool_decide (name = [])) with false
    by (symmetry; by apply bool_decide_eq_false).
  rewrite andb_true_r.
  by destruct (bool_decide (name = B "no filename")).
Qed.

(** X12.  Parsing gives back what a well-formed line was written from.
    The line is [Attachment: ], a name, [ (], a mime type, [, ], decimal
    digits and [ bytes)].  The name is not empty, has no opening
    parenthesis and no white space at either end; the mime type has no
    comma, no closing parenthesis and no white space at its end; both
    fit their arrays.  Then the parsed mime type is the mime type, the
    parsed size is the value of the digits, at most the largest
    [long long], and the parsed name is the name, unless the name is the
    phrase [no filename], for which no name is recorded. *)
Theorem parseAttachmentLine_reads_formatted_line (name mime digits : cstring) :
  Forall (fun c : byte => c <> NUL) name ->
  Forall (fun c : byte => c <> NUL) mime ->
  name <> [] -> x28 ∉ name ->
  (forall c : byte, head name = Some c -> c ∉ white_space) ->
  (forall c : byte, last name = Some c -> c ∉ white_space) ->
  (length name + 1 < MaxPathLen)%nat ->
  x2c ∉ mime -> x29 ∉ mime ->
  (forall c : byte, last mime = Some c -> c ∉ white_space) ->
  (length mime < 128)%nat ->
  digits <> [] -> Forall (fun d : byte => is_digit d = true) digits ->
  (length (mime ++ B ", " ++ digits ++ B " bytes") < MaxPathLen)%nat ->
  parseAttachmentLine
    (B "Attachment: " ++ name ++ B " (" ++ mime ++ B ", " ++ digits ++ B " bytes)")
    MaxPathLen 128
  = {| attName := if bool_decide (name = B "no filename") then [] else name;
       attMime := mime;
       attBytes := clamp_ll (digits_value 0 digits);
       hasName := negb (bool_decide (name = B "no filename")) |}.
Proof. apply parseAttachmentLine_formatted. Qed.

Lemma parseAttachmentLine_reads_formatted_line_witness :
  parseAttachmentLine (B "Attachment: my image.png (image/png, 311164 bytes)")
    MaxPathLen 128
  = mkParsed (B "my image.png") (B "image/png") 311164 true
  /\ parseAttachmentLine (B "Attachment: no filename (image/jpeg, 439593 bytes)")
       MaxPathLen 128
     = mkParsed [] (B "image/jpeg") 439593 false.
Proof.
  assert (Hform : forall name mime digits : cstring,
    forallb (fun c : byte => negb (bool_decide (c = NUL))) name = true ->
    forallb (fun c : byte => negb (bool_decide (c = NUL))) mime = true ->
    bool_decide (name <> []) = true -> bool_decide (x28 ∉ name) = true ->
    bool_decide (default x41 (head name) ∉ white_space) = true ->
    bool_decide (default x41 (last name) ∉ white_space) = true ->
    bool_decide (length name + 1 < MaxPathLen)%nat = true ->
    bool_decide (x2c ∉ mime) = true -> bool_decide (x29 ∉ mime) = true ->
    bool_decide (default x41 (last mime) ∉ white_space) = true ->
    bool_decide (length mime < 128)%nat = true ->
    bool_decide (digits <> []) = true ->
    forallb is_digit digits = true ->
    bool_decide (length (mime ++ B ", " ++ digits ++ B " bytes") < MaxPathLen)%nat = true ->
    parseAttachmentLine
      (B "Attachment: " ++ name ++ B " (" ++ mime ++ B ", " ++ digits ++ B " bytes)")
      MaxPathLen 128
    = {| attName := if bool_decide (name = B "no filename") then [] else name;
         attMime := mime;
         attBytes := clamp_ll (digits_value 0 digits);
         hasName := negb (bool_decide (name = B "no filename")) |}).
  { intros name mime digits H1 H2 H3 H4 H5 H6 H7 H8 H9 H10 H11 H12 H13 H14.
    apply parseAttachmentLine_reads_formatted_line.
    - by apply no_NUL_decide.
    - by apply no_NUL_decide.
    - by apply bool_decide_eq_true in H3.
    - by apply bool_decide_eq_true in H4.
    - intros c Hc. rewrite Hc in H5. by apply bool_decide_eq_true in H5.
    - intros c Hc. rewrite Hc in H6. by apply bool_decide_eq_true in H6.
    - by apply bool_decide_eq_true in H7.
    - by apply bool_decide_eq_true in H8.
    - by apply bool_decide_eq_true in H9.
    - intros c Hc. rewrite Hc in H10. by apply bool_decide_eq_true in H10.
    - by apply bool_decide_eq_true in H11.
    - by apply bool_decide_eq_true in H12.
    - apply Forall_forall. intros d Hd%list_elem_of_In.
      rewrite forallb_forall in H13. by apply H13.
    - by apply bool_decide_eq_true in H14. }
  split.
  - apply (Hform (B "my image.png") (B "image/png") (B "311164")); reflexivity.
  - apply (Hform (B "no filename") (B "image/jpeg") (B "439593")); reflexivity.
Defined.

Lemma skip_space_suffix (s : cstring) : skip_space s `suffix_of` s.
Proof.
  induction s as [|c s IH]; [done|]. simpl.
  destruct (isspace (byte_val c)); [by apply suffix_cons_r | done].
Qed.

Lemma parseAttachmentLine_no_parenthesis (t : cstring) (cap1 cap2 : nat) :
  x28 ∉ t ->
  parseAttachmentLine (B "Attachment:" ++ t) cap1 cap2 = mkParsed [] [] (-1) false.
Proof.
  intros Ht. unfold parseAttachmentLine.
  rewrite startsWith_app, drop_app_length. cbn [negb].
  rewrite strchr_absent; [done|].
  intros Hin. apply Ht. destruct (skip_space_suffix t) as [k ->].
  apply elem_of_app. by right.
Qed.

Lemma not_other_marker (t : cstring) :
  startsWithIgnoreCase (B "Attachment:" ++ t) (B "Type:") = false
  /\ startsWithIgnoreCase (B "Attachment:" ++ t) (B "Received:") = false
  /\ startsWithIgnoreCase (B "Attachment:" ++ t) (B "From:") = false.
Proof. done. Qed.

(** X13.  An attachment line without an opening parenthesis after the
    marker has neither a name nor a size for the matcher: whatever the
    catalog holds, the line is written as an unmatched placeholder (a
    newline, the opening of a quote, the bold label [Unmatched
    attachment placeholder:], the escaped text of the line and the end
    of the quote with two newlines) and the catalog is left as it
    was. *)
Theorem attachment_line_without_parenthesis_is_unmatched (st : state) (t : cstring) :
  holds (st_line st) (B "Attachment:" ++ t) -> x28 ∉ t ->
  process_line st
  = bind_outcome (writeLatexEscaped (trimRight (st_line st))) (fun o =>
      Done {| st_list := st_list st;
              st_out := st_out st
                ++ ([NL] ++ B "\begin{quote}" ++ [NL]
                    ++ B "\textbf{Unmatched attachment placeholder:} ")
                ++ o ++ (B "\end{quote}" ++ [NL; NL]);
              st_line := trimRight (st_line st);
              st_events := st_events st ++ [Unmatched] |}).
Proof.
  intros Hb Ht.
  assert (Hl : holds (trimRight (st_line st)) (B "Attachment:" ++ rstrip t)).
  { by apply (marker_survives _ _ _ (B "Attachment")). }
  destruct (not_other_marker (rstrip t)) as (H1 & H2 & H3).
  rewrite (process_line_plain _ _ Hl H1 H2 H3), startsWith_app.
  unfold attachment_branch. rewrite (cstr_holds _ _ Hl).
  rewrite parseAttachmentLine_no_parenthesis; [done|].
  intros Hin. apply Ht. destruct (rstrip_prefix t) as [k Hk]. rewrite Hk.
  apply elem_of_app. by left.
Qed.

Lemma attachment_line_without_parenthesis_is_unmatched_witness :
  let st := mkState [mkAttachmentFile (B "voice.m4a") (B "./attachments/voice.m4a") 10 false]
              [] (B "Attachment: voice.m4a" ++ [NL; NUL]) [] in
  holds (st_line st) (B "Attachment:" ++ B " voice.m4a" ++ [NL])
  /\ (x28 ∉ B " voice.m4a" ++ [NL])
  /\ process_line st
     = Done {| st_list := st_list st;
               st_out := [NL] ++ B "\begin{quote}" ++ [NL]
                 ++ B "\textbf{Unmatched attachment placeholder:} Attachment: voice.m4a\end{quote}"
                 ++ [NL; NL];
               st_line := B "Attachment: voice.m4a" ++ [NUL; NUL];
               st_events := [Unmatched] |}.
Proof.
  intros st.
  assert (Hh : holds (st_line st) (B "Attachment:" ++ B " voice.m4a" ++ [NL])).
  { split; [by apply no_NUL_decide | by exists []]. }
  assert (Ht : x28 ∉ B " voice.m4a" ++ [NL]) by (apply (bool_decide_unpack _); exact I).
  split_and!; [exact Hh | exact Ht |].
  rewrite (attachment_line_without_parenthesis_is_unmatched st _ Hh Ht). reflexivity.
Defined.

(** ** Blank lines *)

Lemma rstrip_white_space (s : cstring) :
  Forall (fun c : byte => c ∈ white_space) s -> rstrip s = [].
Proof.
  induction s as [|c s IH] using rev_ind; [done|].
  intros [Hs Hc]%Forall_app. apply Forall_cons in Hc as [Hc _].
  rewrite rstrip_snoc, is_trimmed_white_space.
  rewrite bool_decide_eq_true_2; [by apply IH | exact Hc].
Qed.

(** X14.  A line of nothing but white space, the empty line and a line
    that is only its end of line among them, is a paragraph break: two
    newlines are written, nothing is escaped and the catalog is left as
    it was. *)
Theorem blank_line_is_paragraph_break (st : state) (s : cstring) :
  holds (st_line st) s -> Forall (fun c : byte => c ∈ white_space) s ->
  process_line st
  = Done {| st_list := st_list st;
            st_out := st_out st ++ [NL; NL];
            st_line := trimRight (st_line st);
            st_events := st_events st ++ [ParagraphBreak] |}.
Proof.
  intros Hb Hs.
  pose proof (trimRight_holds _ _ Hb) as Hl.
  rewrite (rstrip_white_space s Hs) in Hl.
  rewrite (process_line_plain _ _ Hl); [|done..].
  cbn [startsWith strncmp_eq length B list_byte_of_string].
  unfold prose_branch.
  rewrite (trimRight_fixed _ [] Hl eq_refl).
  destruct Hl as [_ [rest ->]]. cbn [app]. by rewrite decide_True.
Qed.

Lemma blank_line_is_paragraph_break_witness :
  let st := mkState [] (B "x") ([x20; x09; x0d; x0a; NUL] ++ B "old") [Prose] in
  holds (st_line st) [x20; x09; x0d; x0a]
  /\ Forall (fun c : byte => c ∈ white_space) [x20; x09; x0d; x0a]
  /\ process_line st
     = Done {| st_list := []; st_out := B "x" ++ [NL; NL];
               st_line := [NUL; NUL; NUL; NUL; NUL] ++ B "old";
               st_events := [Prose; ParagraphBreak] |}.
Proof.
  intros st.
  assert (Hh : holds (st_line st) [x20; x09; x0d; x0a]).
  { split; [by apply no_NUL_decide | by exists (B "old")]. }
  assert (Hw : Forall (fun c : byte => c ∈ white_space) [x20; x09; x0d; x0a]).
  { repeat (apply Forall_cons; split; [by apply (bool_decide_unpack _)|]).
    apply Forall_nil_2. }
  split_and!; [exact Hh | exact Hw |].
  rewrite (blank_line_is_paragraph_break st _ Hh Hw). reflexivity.
Defined.

(** ** Runs on input without bytes from 0x80 on *)

Lemma holds_cstr (a rest : list byte) : holds (a ++ NUL :: rest) (cstr a).
Proof.
  induction a as [|c a [IH1 [rest' IH2]]].
  - split; [done | by exists rest].
  - cbn [app cstr]. destruct (decide (c = NUL)) as [->|Hc].
    + split; [done | by eexists].
    + split; [by apply Forall_cons|]. exists rest'. cbn [app]. by rewrite IH2.
Qed.

Lemma cstr_Forall (P : byte -> Prop) (a : list byte) :
  Forall P a -> Forall P (cstr a).
Proof.
  induction 1 as [|c a Hc _ IH]; [done|]. cbn [cstr].
  destruct (decide (c = NUL)); [done | by apply Forall_cons].
Qed.

Lemma read_line_holds_cstr (st : state) (chunk : list byte) :
  holds (st_line (read_line st chunk)) (cstr chunk).
Proof.
  simpl. unfold store. rewrite <- app_assoc. cbn [app]. apply holds_cstr.
Qed.

Lemma prefix_Forall (P : byte -> Prop) (s s' : list byte) :
  s' `prefix_of` s -> Forall P s -> Forall P s'.
Proof. intros [k ->] H. by apply Forall_app in H as [? _]. Qed.

Lemma writeLatexEscaped_low (buf : buffer) (s : cstring) :
  holds buf s -> Forall low s -> exists o : list byte, writeLatexEscaped buf = Done o.
Proof.
  intros [Hs [rest ->]] Hlow. eexists. apply writeLatexEscaped_plain.
  apply Forall_forall. intros c Hc. rewrite Forall_forall in Hs, Hlow.
  split; [by apply Hs | by apply Hlow].
Qed.

Lemma process_line_low (st : state) (s : cstring) :
  fits_int (st_list st) -> holds (st_line st) s -> Forall low s ->
  exists st' : state, process_line st = Done st'.
Proof.
  intros Hfit Hb Hlow.
  pose proof (trimRight_holds _ _ Hb) as Hl1.
  pose proof (prefix_Forall low _ _ (rstrip_prefix s) Hlow) as Hlow1.
  unfold process_line. cbv zeta.
  destruct (_ || _); [by eexists|].
  set (line2 := if startsWithIgnoreCase _ _ then _ else _).
  assert (H2 : exists s2 : cstring, holds line2 s2 /\ Forall low s2).
  { unfold line2. destruct (startsWithIgnoreCase _ _).
    - destruct (stripPhoneFromFromLine_prefix _ _ Hl1) as (s2 & Hs2 & Hpre & _).
      exists s2. split; [done|]. by eapply prefix_Forall.
    - by exists (rstrip s). }
  destruct H2 as (s2 & Hl2 & Hlow2).
  destruct (startsWith _ _).
  - unfold attachment_branch.
    destruct (0 <=? resolve _ _) eqn:E.
    + destruct (resolve_nonneg (st_list st)
                  (parseAttachmentLine (cstr line2) MaxPathLen 128) Hfit)
        as (i & a & Hr & Hi & _); [lia|].
      rewrite Hr, Nat2Z.id, Hi. by eexists.
    + destruct (writeLatexEscaped_low _ _ Hl2 Hlow2) as [o ->]. by eexists.
  - unfold prose_branch.
    pose proof (trimRight_holds _ _ Hl2) as Hl3.
    pose proof (prefix_Forall low _ _ (rstrip_prefix s2) Hlow2) as Hlow3.
    destruct (writeLatexEscaped_low _ _ Hl3 Hlow3) as [o Ho]. rewrite Ho.
    destruct Hl3 as [Hs3 [rest Hrest]]. rewrite Hrest.
    destruct (rstrip s2) as [|c t]; cbn [app].
    + rewrite decide_True by done. by eexists.
    + apply Forall_cons in Hs3 as [Hc _]. rewrite decide_False by done. by eexists.
Qed.

Lemma fgets_take_app (n : nat) :
  forall s : list byte, (fgets_take n s).1 ++ (fgets_take n s).2 = s.
Proof.
  induction n as [|n IH]; intros s; [by destruct s|].
  destruct s as [|c s]; [done|]. cbn [fgets_take].
  destruct (decide (c = NL)); [done|].
  specialize (IH s). destruct (fgets_take n s) as [a r]. simpl in *. by rewrite IH.
Qed.

Lemma fgets_split (input chunk rest : list byte) :
  fgets LineSize input = Some (chunk, rest) -> input = chunk ++ rest.
Proof.
  unfold fgets. destruct input as [|c s]; [done|]. intros H.
  assert (H' : fgets_take (LineSize - 1) (c :: s) = (chunk, rest)) by congruence.
  pose proof (fgets_take_app (LineSize - 1) (c :: s)) as Happ.
  rewrite H' in Happ. by rewrite <- Happ.
Qed.

Lemma main_loop_low (fuel : nat) :
  forall (input : list byte) (st : state),
    (length input < fuel)%nat -> Forall low input -> fits_int (st_list st) ->
    exists st' : state, main_loop fuel input st = Done st'.
Proof.
  induction fuel as [|fuel IH]; intros input st Hlen Hlow Hfit; [lia|].
  cbn [main_loop].
  destruct (fgets LineSize input) as [[chunk rest]|] eqn:E; [|by eexists].
  pose proof (fgets_shorter _ _ _ E) as Hshort.
  apply fgets_split in E. subst input. apply Forall_app in Hlow as [Hc Hr].
  destruct (process_line_low (read_line st chunk) (cstr chunk))
    as [st1 H1]; [done | apply read_line_holds_cstr | by apply cstr_Forall |].
  rewrite H1. cbn [bind_outcome]. apply IH; [lia | done |].
  destruct (process_line_advance (read_line st chunk) st1 Hfit H1)
    as (rs & _ & _ & _ & Hlen1 & _).
  unfold fits_int in *. simpl in Hlen1. lia.
Qed.

(** X15.  An input file without bytes from 0x80 on is converted in
    full: whatever the catalog (of a size an [int] can index), the
    output so far and the old content of the line array, the loop reads
    the input to its end and returns, with no read outside the line
    array. *)
Theorem input_below_0x80_is_converted (input : list byte) (st : state) :
  Forall low input -> fits_int (st_list st) ->
  exists st' : state, run input st = Done st'.
Proof. intros Hlow Hfit. apply main_loop_low; [lia | done | done]. Qed.

Lemma input_below_0x80_is_converted_witness :
  let input := B "Type: incoming" ++ [NL] ++ B "From: A (1)" ++ [NL; NUL; NL]
               ++ B "100% sure" in
  let st := mkState [] [] [xf0] [] in
  Forall low input /\ fits_int (st_list st)
  /\ st_out <$> run input st = Done (B "From: A\\" ++ [NL; NL; NL] ++ B "100\% sure\\" ++ [NL])
  /\ exists st' : state, run input st = Done st'.
Proof.
  intros input st.
  assert (Hlow : Forall low input).
  { repeat (apply Forall_cons; split; [reflexivity|]). apply Forall_nil_2. }
  assert (Hfit : fits_int (st_list st)) by (unfold fits_int, INT_MAX; simpl; lia).
  split_and!; [exact Hlow | exact Hfit | reflexivity |].
  exact (input_below_0x80_is_converted input st Hlow Hfit).
Defined.

(** ** The document *)

Lemma process_line_appends (st st' : state) :
  process_line st = Done st' ->
  exists (o : list byte) (e : event),
    st_out st' = st_out st ++ o /\ st_events st' = st_events st ++ [e].
Proof.
  unfold process_line. cbv zeta.
  destruct (_ || _).
  - intros [= <-]. exists [], Dropped. simpl. by rewrite app_nil_r.
  - destruct (startsWith _ _).
    + unfold attachment_branch. destruct (0 <=? _).
      * destruct (_ !! _); [|discriminate]. intros [= <-]. simpl. by eexists _, _.
      * intros (o & _ & [= <-])%bind_outcome_Done. simpl. by eexists _, _.
    + unfold prose_branch. destruct (trimRight _) as [|c t]; [discriminate|].
      destruct (decide (c = NUL)).
      * intros [= <-]. simpl. by eexists _, _.
      * intros (o & _ & [= <-])%bind_outcome_Done. simpl. by eexists _, _.
Qed.

Lemma main_loop_appends (fuel : nat) :
  forall (input : list byte) (st st' : state),
    main_loop fuel input st = Done st' ->
    exists (o : list byte) (es : list event),
      st_out st' = st_out st ++ o /\ st_events st' = st_events st ++ es.
Proof.
  induction fuel as [|fuel IH]; intros input st st' H; [discriminate|].
  cbn [main_loop] in H.
  destruct (fgets LineSize input) as [[chunk rest]|].
  - apply bind_outcome_Done in H as (st1 & H1 & H2).
    apply process_line_appends in H1 as (o1 & e & Ho1 & He1).
    apply IH in H2 as (o2 & es & Ho2 & He2).
    exists (o1 ++ o2), (e :: es). simpl in Ho1, He1.
    rewrite Ho2, Ho1, He2, He1. by rewrite <- !app_assoc.
  - injection H as <-. exists [], []. by rewrite !app_nil_r.
Qed.

(** X16.  Whatever the input and the catalog, the document that is
    written is the fixed preamble, byte for byte, then a body, then the
    fixed closing: the loop only ever appends to what was written before
    it, and nothing is written after the closing. *)
Theorem document_is_preamble_body_closing (input : list byte)
    (l : AttachmentList) (line0 : buffer) (doc : list byte) :
  write_document input l line0 = Done doc ->
  exists body : list byte,
    doc = (B "\documentclass[a4paper,11pt]{article}" ++ [NL]
           ++ B "\usepackage[margin=25mm]{geometry}" ++ [NL]
           ++ B "\usepackage{graphicx}" ++ [NL]
           ++ B "\usepackage{fontspec}" ++ [NL]
           ++ B "\setmainfont{Latin Modern Roman}" ++ [NL]
           ++ B "\newfontfamily\emojifont{Segoe UI Emoji}" ++ [NL]
           ++ B "\DeclareTextFontCommand{\emoji}{\emojifont}" ++ [NL]
           ++ B "\setlength{\emergencystretch}{3em}" ++ [NL]
           ++ B "\begin{document}" ++ [NL; NL])
          ++ body ++ ([NL] ++ B "\end{document}" ++ [NL]).
Proof.
  unfold write_document.
  intros (st' & Hrun & [= <-])%bind_outcome_Done.
  apply main_loop_appends in Hrun as (body & es & Hout & _). cbn [st_out] in Hout.
  exists body. rewrite Hout, <- app_assoc. reflexivity.
Qed.

Lemma document_is_preamble_body_closing_witness :
  write_document (B "hi" ++ [NL]) [] []
  = Done (B "\documentclass[a4paper,11pt]{article}" ++ [NL]
          ++ B "\usepackage[margin=25mm]{geometry}" ++ [NL]
          ++ B "\usepackage{graphicx}" ++ [NL]
          ++ B "\usepackage{fontspec}" ++ [NL]
          ++ B "\setmainfont{Latin Modern Roman}" ++ [NL]
          ++ B "\newfontfamily\emojifont{Segoe UI Emoji}" ++ [NL]
          ++ B "\DeclareTextFontCommand{\emoji}{\emojifont}" ++ [NL]
          ++ B "\setlength{\emergencystretch}{3em}" ++ [NL]
          ++ B "\begin{document}" ++ [NL; NL]
          ++ B "hi\\" ++ [NL]
          ++ [NL] ++ B "\end{document}" ++ [NL])
  /\ exists body : list byte,
       B "\documentclass[a4paper,11pt]{article}" ++ [NL]
       ++ B "\usepackage[margin=25mm]{geometry}" ++ [NL]
       ++ B "\usepackage{graphicx}" ++ [NL]
       ++ B "\usepackage{fontspec}" ++ [NL]
       ++ B "\setmainfont{Latin Modern Roman}" ++ [NL]
       ++ B "\newfontfamily\emojifont{Segoe UI Emoji}" ++ [NL]
       ++ B "\DeclareTextFontCommand{\emoji}{\emojifont}" ++ [NL]
       ++ B "\setlength{\emergencystretch}{3em}" ++ [NL]
       ++ B "\begin{document}" ++ [NL; NL]
       ++ B "hi\\" ++ [NL]
       ++ [NL] ++ B "\end{document}" ++ [NL]
       = (B "\documentclass[a4paper,11pt]{article}" ++ [NL]
          ++ B "\usepackage[margin=25mm]{geometry}" ++ [NL]
          ++ B "\usepackage{graphicx}" ++ [NL]
          ++ B "\usepackage{fontspec}" ++ [NL]
          ++ B "\setmainfont{Latin Modern Roman}" ++ [NL]
          ++ B "\newfontfamily\emojifont{Segoe UI Emoji}" ++ [NL]
          ++ B "\DeclareTextFontCommand{\emoji}{\emojifont}" ++ [NL]
          ++ B "\setlength{\emergencystretch}{3em}" ++ [NL]
          ++ B "\begin{document}" ++ [NL; NL])
         ++ body ++ ([NL] ++ B "\end{document}" ++ [NL]).
Proof.
  assert (Hdoc : write_document (B "hi" ++ [NL]) [] []
    = Done (B "\documentclass[a4paper,11pt]{article}" ++ [NL]
          ++ B "\usepackage[margin=25mm]{geometry}" ++ [NL]
          ++ B "\usepackage{graphicx}" ++ [NL]
          ++ B "\usepackage{fontspec}" ++ [NL]
          ++ B "\setmainfont{Latin Modern Roman}" ++ [NL]
          ++ B "\newfontfamily\emojifont{Segoe UI Emoji}" ++ [NL]
          ++ B "\DeclareTextFontCommand{\emoji}{\emojifont}" ++ [NL]
          ++ B "\setlength{\emergencystretch}{3em}" ++ [NL]
          ++ B "\begin{document}" ++ [NL; NL]
          ++ B "hi\\" ++ [NL]
          ++ [NL] ++ B "\end{document}" ++ [NL])) by reflexivity.
  split; [exact Hdoc|].
  exact (document_is_preamble_body_closing _ _ _ _ Hdoc).
Defined.

(** ** The bound of the output path *)

(** X17.  The output path never exceeds its array when it is written
    without an overflow; the overflow happens exactly when the last dot
    of the input path lies at an offset from 4092 to 4095, where the
    clamp on the base length does not yet apply and [.tex] no longer
    fits.  A path without a dot never overflows. *)
Theorem output_path_overflows_near_the_bound (base ext : cstring) :
  x2e ∉ ext -> base <> [] ->
  (deriveOutputPath (base ++ x2e :: ext) = None
   <-> (MaxPathLen - 4 <= length base < MaxPathLen)%nat)
  /\ deriveOutputPath ext <> None
  /\ (forall inputPath outputPath : cstring,
        deriveOutputPath inputPath = Some outputPath ->
        (length outputPath < MaxPathLen)%nat).
Proof.
  intros Hext Hbase.
  assert (Hdot : deriveOutputPath (base ++ x2e :: ext)
                 = let baseLen := if (MaxPathLen <=? length base)%nat
                                  then (MaxPathLen - 5)%nat else length base in
                   if (MaxPathLen <? baseLen + 5)%nat then None
                   else Some (take baseLen (base ++ x2e :: ext) ++ B ".tex")).
  { unfold deriveOutputPath. rewrite (strrchr_last _ _ _ Hext).
    destruct (length base) eqn:E; [by destruct base | done]. }
  assert (Hnodot : deriveOutputPath ext
                   = Some (take (MaxPathLen - 1) (ext ++ B ".tex"))).
  { unfold deriveOutputPath. by rewrite (strrchr_absent _ _ Hext). }
  assert (H4096 : MaxPathLen = 4096%nat) by reflexivity.
  split_and!.
  - rewrite Hdot. cbv zeta.
    destruct (Nat.leb_spec MaxPathLen (length base)) as [Hge|Hlt].
    + rewrite H4096 in *. simpl. split; [discriminate | lia].
    + destruct (Nat.ltb_spec MaxPathLen (length base + 5)) as [Hov|Hok].
      * split; [lia | done].
      * split; [discriminate | lia].
  - by rewrite Hnodot.
  - intros p q Hq. unfold deriveOutputPath, snprintf_s in Hq.
    destruct (strrchr p x2e) as [[|k]|].
    + injection Hq as <-. rewrite length_take, H4096. lia.
    + destruct (MaxPathLen <=? S k)%nat;
        destruct (Nat.ltb_spec MaxPathLen (MaxPathLen - 5 + 5));
        destruct (Nat.ltb_spec MaxPathLen (S k + 5));
        try discriminate Hq; injection Hq as <-;
        rewrite length_app, length_take; change (length (B ".tex")) with 4%nat;
        rewrite H4096 in *; lia.
    + injection Hq as <-. rewrite length_take, H4096. lia.
Qed.

Lemma output_path_overflows_near_the_bound_witness :
  (x2e ∉ B "txt") /\ replicate 4092 x61 <> []
  /\ deriveOutputPath (replicate 4092 x61 ++ B ".txt") = None
  /\ deriveOutputPath (replicate 4091 x61 ++ B ".txt") = Some (replicate 4091 x61 ++ B ".tex").
Proof.
  assert (Hext : x2e ∉ B "txt") by (apply (bool_decide_unpack _); exact I).
  assert (Hbase : replicate 4092 x61 <> []) by discriminate.
  split_and!; [exact Hext | exact Hbase | | vm_compute; reflexivity].
  destruct (output_path_overflows_near_the_bound (replicate 4092 x61) (B "txt")
              Hext Hbase) as [Hov _].
  apply Hov. rewrite length_replicate. vm_compute. lia.
Defined.

(** ** The last dot of the whole path *)

(** X20.  The last dot is looked for in the whole input path, not in its
    final component.  When the final component has no dot and a
    directory name before it has one, the output path is the input path
    cut at the last dot of that directory name, followed by [.tex]: the
    rest of the directory name and the whole final component are lost,
    and the output is not written next to the input under its name. *)
Theorem last_dot_in_directory_cuts_the_path (a b name : cstring) :
  a <> [] -> x2e ∉ b -> x2e ∉ name ->
  (length (a ++ B ".tex") < MaxPathLen)%nat ->
  deriveOutputPath (a ++ x2e :: b ++ x2f :: name) = Some (a ++ B ".tex")
  /\ deriveOutputPath (a ++ x2e :: b ++ x2f :: name)
     <> Some (a ++ x2e :: b ++ x2f :: name ++ B ".tex").
Proof.
  intros Ha Hb Hname Hfit.
  assert (Hcut : deriveOutputPath (a ++ x2e :: b ++ x2f :: name)
                 = Some (a ++ B ".tex")).
  { apply deriveOutputPath_last_dot; [|done|done].
    rewrite elem_of_app, elem_of_cons. intros [?|[?|?]]; done. }
  split; [exact Hcut|].
  rewrite Hcut. intros [= Heq]. apply app_inv_head in Heq.
  apply (f_equal length) in Heq.
  cbn [length] in Heq. rewrite !length_app in Heq. cbn [length] in Heq.
  rewrite length_app in Heq. change (length (B ".tex")) with 4%nat in Heq. lia.
Qed.

Lemma last_dot_in_directory_cuts_the_path_witness :
  B "sub" <> [] /\ (x2e ∉ B "dir") /\ (x2e ∉ B "in")
  /\ (length (B "sub" ++ B ".tex") < MaxPathLen)%nat
  /\ deriveOutputPath (B "sub.dir/in") = Some (B "sub.tex")
  /\ deriveOutputPath (B "../notes") = Some (B "..tex").
Proof.
  assert (Ha : B "sub" <> []) by discriminate.
  assert (Hb : x2e ∉ B "dir") by (apply (bool_decide_unpack _); exact I).
  assert (Hname : x2e ∉ B "in") by (apply (bool_decide_unpack _); exact I).
  assert (Hfit : (length (B "sub" ++ B ".tex") < MaxPathLen)%nat)
    by (vm_compute; lia).
  split_and!; [exact Ha | exact Hb | exact Hname | exact Hfit | |].
  - exact (proj1 (last_dot_in_directory_cuts_the_path (B "sub") (B "dir") (B "in")
                    Ha Hb Hname Hfit)).
  - refine (proj1 (last_dot_in_directory_cuts_the_path (B ".") [] (B "notes")
                     _ _ _ _)).
    + discriminate.
    + apply (bool_decide_unpack _). exact I.
    + apply (bool_decide_unpack _). exact I.
    + vm_compute. lia.
Defined.

(** ** A reference line that names a file of the catalog *)

Lemma reference_line_parsed (name mime digits : cstring) :
  reference_parts name mime digits ->
  parseAttachmentLine (reference_line name mime digits) MaxPathLen 128
  = {| attName := if bool_decide (name = B "no filename") then [] else name;
       attMime := mime;
       attBytes := clamp_ll (digits_value 0 digits);
       hasName := negb (bool_decide (name = B "no filename")) |}.
Proof.
  intros (H1 & H2 & H3 & H4 & H5 & H6 & H7 & H8 & H9 & H10 & H11 & H12 & H13 & H14).
  apply parseAttachmentLine_formatted; try done. lia.
Qed.

Lemma reference_line_holds (buf : buffer) (name mime digits eol : cstring) :
  Forall (fun c : byte => c ∈ white_space) eol ->
  holds buf (reference_line name mime digits ++ eol) ->
  holds (trimRight buf) (reference_line name mime digits).
Proof.
  intros Heol Hb. apply trimRight_holds in Hb.
  replace (rstrip (reference_line name mime digits ++ eol))
    with (reference_line name mime digits) in Hb; [done|].
  unfold reference_line. change (B " bytes)") with (B " bytes" ++ [x29]).
  rewrite !app_assoc. rewrite <- (app_assoc _ [x29] eol). cbn [app].
  rewrite rstrip_app_keep by done. by rewrite (rstrip_white_space eol Heol).
Qed.

Lemma findAttachmentByExactName_first (l : AttachmentList) (name : cstring)
    (i : nat) (a : AttachmentFile) :
  fits_int l -> l !! i = Some a -> used a = false -> fileName a = name ->
  (forall (j : nat) (g : AttachmentFile),
     (j < i)%nat -> l !! j = Some g -> used g = false -> fileName g <> name) ->
  findAttachmentByExactName l name = Z.of_nat i.
Proof.
  intros Hfit Hi Hu Hn Hmin.
  pose proof (findAttachmentByExactName_found l name i a Hfit Hi Hu Hn) as Hpos.
  destruct (findAttachmentByExactName_nonneg l name Hfit Hpos)
    as (i' & a' & -> & Hi' & Hu' & Hn' & Hmin').
  f_equal. destruct (Nat.lt_trichotomy i i') as [Hlt|[->|Hgt]]; [|done|].
  - by destruct (Hmin' i a Hlt Hi Hu).
  - by destruct (Hmin i' a' Hgt Hi' Hu').
Qed.

(** X18.  A reference line written from well-formed parts, however its
    end of line is written, whose name is that of an unused file of the
    catalog: the iteration marks the first such file used and writes a
    fragment for [attachments/] and the name.  When the mime type starts
    with [image/] or the name has an image extension the fragment is the
    image inclusion: a paragraph start, the includegraphics command
    around the detokenized path and a paragraph end.  Otherwise it is
    the attachment note: a quote with the bold label [Attachment:] and
    the detokenized path.  The declared size plays no part. *)
Theorem named_reference_line_is_resolved (st : state)
    (name mime digits eol : cstring) (i : nat) (a : AttachmentFile) :
  reference_parts name mime digits -> name <> B "no filename" ->
  Forall (fun c : byte => c ∈ white_space) eol ->
  holds (st_line st) (reference_line name mime digits ++ eol) ->
  fits_int (st_list st) ->
  st_list st !! i = Some a -> used a = false -> fileName a = name ->
  (forall (j : nat) (g : AttachmentFile),
     (j < i)%nat -> st_list st !! j = Some g -> used g = false ->
     fileName g <> name) ->
  let image := isImageMime mime || hasImageExtension name in
  process_line st
  = Done {| st_list := alter mark_used i (st_list st);
            st_out := st_out st ++
              (if image
               then [NL] ++ B "\par\noindent" ++ [NL]
                    ++ B "\includegraphics[width=\linewidth,height=0.9\textheight,keepaspectratio]{\detokenize{attachments/"
                    ++ name ++ B "}}" ++ [NL] ++ B "\par\medskip" ++ [NL; NL]
               else [NL] ++ B "\begin{quote}" ++ [NL]
                    ++ B "\textbf{Attachment:} \detokenize{attachments/"
                    ++ name ++ B "}" ++ [NL] ++ B "\end{quote}" ++ [NL; NL]);
            st_line := trimRight (st_line st);
            st_events := st_events st ++
              [if image then ImageInclude (Z.of_nat i)
               else NonImageAttachment (Z.of_nat i)] |}.
Proof.
  intros Hparts Hnamed Heol Hb Hfit Hi Hu Hn Hmin image.
  pose proof (reference_line_holds _ _ _ _ _ Heol Hb) as Hl.
  pose proof (reference_line_parsed _ _ _ Hparts) as Hparse.
  rewrite bool_decide_eq_false_2 in Hparse by done. cbn [negb] in Hparse.
  assert (Hline : reference_line name mime digits
                  = B "Attachment:" ++ x20 :: name ++ B " (" ++ mime ++ B ", "
                      ++ digits ++ B " bytes)") by reflexivity.
  rewrite Hline in Hl.
  destruct (not_other_marker (x20 :: name ++ B " (" ++ mime ++ B ", "
                                ++ digits ++ B " bytes)")) as (H1 & H2 & H3).
  rewrite (process_line_plain _ _ Hl H1 H2 H3), startsWith_app.
  unfold attachment_branch. rewrite (cstr_holds _ _ Hl), <- Hline, Hparse.
  assert (Hres : resolve (st_list st)
                   {| attName := name; attMime := mime;
                      attBytes := clamp_ll (digits_value 0 digits);
                      hasName := true |} = Z.of_nat i).
  { unfold resolve. cbn [hasName attName].
    rewrite (findAttachmentByExactName_first _ _ i a Hfit Hi Hu Hn Hmin).
    replace (Z.of_nat i <? 0) with false by (symmetry; apply Z.ltb_ge; lia).
    done. }
  cbv zeta. rewrite Hres.
  replace (0 <=? Z.of_nat i) with true by (symmetry; apply Z.leb_le; lia).
  rewrite Nat2Z.id, Hi, Hn. cbn [attMime]. fold image.
  rewrite snprintf_s_short; [done|].
  destruct Hparts as (_ & _ & _ & _ & _ & _ & Hlen & _).
  rewrite length_app. change (length (B "attachments/")) with 12%nat. lia.
Qed.

Lemma reference_parts_decide (name mime digits : cstring) :
  forallb (fun c : byte => negb (bool_decide (c = NUL))) name = true ->
  forallb (fun c : byte => negb (bool_decide (c = NUL))) mime = true ->
  bool_decide (name <> []) = true -> bool_decide (x28 ∉ name) = true ->
  bool_decide (default x41 (head name) ∉ white_space) = true ->
  bool_decide (default x41 (last name) ∉ white_space) = true ->
  bool_decide (length name + 12 < MaxPathLen)%nat = true ->
  bool_decide (x2c ∉ mime) = true -> bool_decide (x29 ∉ mime) = true ->
  bool_decide (default x41 (last mime) ∉ white_space) = true ->
  bool_decide (length mime < 128)%nat = true ->
  bool_decide (digits <> []) = true ->
  forallb is_digit digits = true ->
  bool_decide (length (mime ++ B ", " ++ digits ++ B " bytes") < MaxPathLen)%nat = true ->
  reference_parts name mime digits.
Proof.
  intros H1 H2 H3 H4 H5 H6 H7 H8 H9 H10 H11 H12 H13 H14.
  unfold reference_parts. split_and!.
  - by apply no_NUL_decide.
  - by apply no_NUL_decide.
  - by apply bool_decide_eq_true in H3.
  - by apply bool_decide_eq_true in H4.
  - intros c Hc. rewrite Hc in H5. by apply bool_decide_eq_true in H5.
  - intros c Hc. rewrite Hc in H6. by apply bool_decide_eq_true in H6.
  - by apply bool_decide_eq_true in H7.
  - by apply bool_decide_eq_true in H8.
  - by apply bool_decide_eq_true in H9.
  - intros c Hc. rewrite Hc in H10. by apply bool_decide_eq_true in H10.
  - by apply bool_decide_eq_true in H11.
  - by apply bool_decide_eq_true in H12.
  - apply Forall_forall. intros d Hd%list_elem_of_In.
    rewrite forallb_forall in H13. by apply H13.
  - by apply bool_decide_eq_true in H14.
Qed.

Lemma named_reference_line_is_resolved_witness :
  let img := mkAttachmentFile (B "IMG.png") (B "./attachments/IMG.png") 999 false in
  let pdf := mkAttachmentFile (B "notes.pdf") (B "./attachments/notes.pdf") 2 false in
  let st := mkState [img; pdf] []
              (B "Attachment: notes.pdf (application/pdf, 999 bytes)" ++ [x0d; NL; NUL])
              [] in
  reference_parts (B "notes.pdf") (B "application/pdf") (B "999")
  /\ holds (st_line st)
       (reference_line (B "notes.pdf") (B "application/pdf") (B "999") ++ [x0d; NL])
  /\ fits_int (st_list st)
  /\ process_line st
     = Done {| st_list := [img; mark_used pdf];
               st_out := [NL] ++ B "\begin{quote}" ++ [NL]
                 ++ B "\textbf{Attachment:} \detokenize{attachments/notes.pdf}"
                 ++ [NL] ++ B "\end{quote}" ++ [NL; NL];
               st_line := B "Attachment: notes.pdf (application/pdf, 999 bytes)"
                          ++ [NUL; NUL; NUL];
               st_events := [NonImageAttachment 1] |}.
Proof.
  intros img pdf st.
  assert (Hparts : reference_parts (B "notes.pdf") (B "application/pdf") (B "999"))
    by (apply reference_parts_decide; reflexivity).
  assert (Hh : holds (st_line st)
                 (reference_line (B "notes.pdf") (B "application/pdf") (B "999")
                  ++ [x0d; NL])).
  { split; [by apply no_NUL_decide | by exists []]. }
  assert (Hfit : fits_int (st_list st)) by (unfold fits_int, INT_MAX; simpl; lia).
  split_and!; [exact Hparts | exact Hh | exact Hfit |].
  rewrite (named_reference_line_is_resolved st (B "notes.pdf") (B "application/pdf")
             (B "999") [x0d; NL] 1 pdf Hparts).
  - reflexivity.
  - discriminate.
  - repeat (apply Forall_cons; split; [by apply (bool_decide_unpack _)|]).
    apply Forall_nil_2.
  - exact Hh.
  - exact Hfit.
  - reflexivity.
  - reflexivity.
  - reflexivity.
  - intros [|[|j]] g Hj Hg _; [injection Hg as <-; discriminate | lia | lia].
Defined.

(** ** The index main uses *)

Lemma lookup_nonneg_or_minus_one (l : AttachmentList)
    (hit : AttachmentFile -> bool) :
  fits_int l ->
  match first_unused hit 0 l with
  | Some i => 0 <= to_int (Z.of_nat i) < Z.of_nat (length l)
  | None => True
  end.
Proof.
  intros Hfit. destruct (first_unused hit 0 l) as [i|] eqn:E; [|done].
  destruct (first_unused_Some _ _ _ _ E) as (k & a & -> & Hk & _).
  simpl. rewrite (index_to_int l k a Hfit Hk).
  apply lookup_lt_Some in Hk. lia.
Qed.

(** X19.  What the two lookups give [main] is -1 or an index of the
    catalog: the write to [items[idx].used] and the read of its name are
    always inside the list. *)
Theorem resolve_is_minus_one_or_in_bounds (l : AttachmentList) (r : parsed) :
  fits_int l ->
  resolve l r = -1 \/ 0 <= resolve l r < Z.of_nat (length l).
Proof.
  intros Hfit.
  assert (Hname : forall name : cstring,
            findAttachmentByExactName l name = -1
            \/ 0 <= findAttachmentByExactName l name < Z.of_nat (length l)).
  { intros name. unfold findAttachmentByExactName.
    pose proof (lookup_nonneg_or_minus_one l (name_hit name) Hfit) as H.
    destruct (first_unused (name_hit name) 0 l); [by right | by left]. }
  assert (Hsize : forall (size : Z) (pref : bool),
            findAttachmentBySize l size pref = -1
            \/ 0 <= findAttachmentBySize l size pref < Z.of_nat (length l)).
  { intros size pref. unfold findAttachmentBySize.
    pose proof (lookup_nonneg_or_minus_one l (image_size_hit size) Hfit) as H1.
    pose proof (lookup_nonneg_or_minus_one l (size_hit size) Hfit) as H2.
    destruct pref.
    - destruct (first_unused (image_size_hit size) 0 l); [by right|].
      destruct (first_unused (size_hit size) 0 l); [by right | by left].
    - destruct (first_unused (size_hit size) 0 l); [by right | by left]. }
  unfold resolve.
  destruct (_ && _); [apply Hsize|].
  destruct (hasName r); [apply Hname | by left].
Qed.

Lemma resolve_is_minus_one_or_in_bounds_witness :
  let l := [mkAttachmentFile (B "a.bin") (B "./attachments/a.bin") 7 true;
            mkAttachmentFile (B "b.bin") (B "./attachments/b.bin") 7 false] in
  fits_int l
  /\ resolve l (mkParsed [] (B "application/zip") 7 false) = 1
  /\ resolve l (mkParsed (B "a.bin") [] (-1) true) = -1
  /\ (resolve l (mkParsed [] (B "application/zip") 7 false) = -1
      \/ 0 <= resolve l (mkParsed [] (B "application/zip") 7 false) < Z.of_nat (length l)).
Proof.
  intros l.
  assert (Hfit : fits_int l) by (unfold fits_int, INT_MAX; simpl; lia).
  split_and!; [exact Hfit | reflexivity | reflexivity |].
  exact (resolve_is_minus_one_or_in_bounds l _ Hfit).
Defined.
